(* Shallow embedding of native/jni/src/proximity_info_state.cpp (LatinIME).

   Modelling conventions.
   - C++ [float] values are modelled as rationals [Q]; rounding is not
     modelled.  Comparisons keep the operators of the source.
   - [int] values are [Z]; counts and indices that the code only uses as
     non-negative sizes (vector sizes, key counts) are [nat].
   - [std::vector<T>] is a [list T]; [v[i] = x] is stdpp's list insert
     and [v[i]] is [nth i v default] (the default is only reached where
     the source reads out of range).
   - [std::bitset<MAX_KEY_COUNT_IN_A_KEYBOARD>] (the near/search key sets)
     is a [gset nat]: [reset()] is the empty set, [set k] adds [k],
     [|=] is union and [test k] is membership.
   - [hash_map_compat<int, float>] (one probability distribution) is an
     association list in the map's iteration order.
   - The geometry provider [ProximityInfo] and the helper functions of
     ProximityInfoStateUtils / ProximityInfoUtils / char_utils are
     collaborators outside this file: they are records of functions, and
     every theorem quantifies over them. *)

From Stdlib Require Import ZArith QArith Qround List Lia Lqa.
From stdpp Require Import base list gmap.

Local Open Scope Z_scope.

(* ------------------------------------------------------------------ *)
(** * Constants *)

(** Modelled from the spec: the constants of defines.h used by
    proximity_info_state.cpp (defines.h is not part of the sources).
    The spec names them (maximum word length, fixed maximum point-to-key
    length, the proximity-list delimiter marker, the negative sentinels);
    the values are those of defines.h. *)
Definition MAX_WORD_LENGTH : nat := 48.
Definition MAX_PROXIMITY_CHARS_SIZE : nat := 16.
Definition ADDITIONAL_PROXIMITY_CHAR_DELIMITER_CODE : Z := 2.
Definition NOT_AN_INDEX : Z := -1.
Definition NOT_A_COORDINATE : Z := -1.
Definition NOT_A_DISTANCE : Z := -1.
Definition EQUIVALENT_CHAR_WITHOUT_DISTANCE_INFO : Z := -2.
Definition PROXIMITY_CHAR_WITHOUT_DISTANCE_INFO : Z := -3.
Definition MAX_POINT_TO_KEY_LENGTH : Z := 10000000.
Definition KEYCODE_SPACE : Z := 32.

(** [ProximityType] of defines.h. *)
Inductive ProximityType :=
| EQUIVALENT_CHAR
| NEAR_PROXIMITY_CHAR
| UNRELATED_CHAR
| ADDITIONAL_PROXIMITY_CHAR.

(** Static constants of proximity_info_state.cpp. *)
Definition NORMALIZED_SQUARED_DISTANCE_SCALING_FACTOR_LOG_2 : Z := 10.
Definition NORMALIZED_SQUARED_DISTANCE_SCALING_FACTOR : Z :=
  Z.shiftl 1 NORMALIZED_SQUARED_DISTANCE_SCALING_FACTOR_LOG_2.
Definition NOT_A_DISTANCE_FLOAT : Q := (-1)%Q.
Definition NOT_A_CODE : Z := -1.
Definition NEAR_KEY_NORMALIZED_SQUARED_THRESHOLD : Q := 4%Q.
Definition DEMOTION_LOG_PROBABILITY : Q := (3 # 10)%Q.

(** Float comparison [x < y]. *)
Definition Qltb (x y : Q) : bool := negb (Qle_bool y x).

(** [std::min(a, b)] is [(b < a) ? b : a]. *)
Definition fmin (a b : Q) : Q := if Qltb b a then b else a.

(* ------------------------------------------------------------------ *)
(** * Collaborators *)

(** The read-only geometry provider ([ProximityInfo]). *)
Record ProximityInfo := {
  hasTouchPositionCorrectionData : bool;
  getMostCommonKeyWidth : Z;
  getMostCommonKeyWidthSquare : Z;
  getKeyCount : nat;
  getCellHeight : Z;
  getCellWidth : Z;
  getGridWidth : Z;
  getGridHeight : Z;
  getKeyboardWidth : Z;
  getKeyboardHeight : Z;
  getKeyIndexOf : Z -> Z;
  getCodePointOf : Z -> Z;
  getNormalizedSquaredDistanceFromCenterFloatG : nat -> Z -> Z -> Q;
  hasSweetSpotData : Z -> bool;
  getSweetSpotCenterXAt : Z -> Q;
  getSweetSpotCenterYAt : Z -> Q;
  getSweetSpotRadiiAt : Z -> Q;
  getKeyCenterXOfKeyIdG : Z -> Z;
  getKeyCenterYOfKeyIdG : Z -> Z;
  (* initializeProximities(inputCodes, xs, ys, inputSize, proximities):
     fills the zeroed proximity array and returns it *)
  initializeProximities :
    list Z -> option (list Z) -> option (list Z) -> Z -> list Z -> list Z
}.

(** The five parallel vectors that [updateTouchPoints] and [popInputData]
    of ProximityInfoStateUtils receive by pointer. *)
Record TouchPoints := {
  mSampledInputXs : list Z;
  mSampledInputYs : list Z;
  mTimes : list Z;
  mLengthCache : list Z;
  mInputIndice : list Z
}.

Definition emptyTouchPoints : TouchPoints := {|
  mSampledInputXs := []; mSampledInputYs := []; mTimes := [];
  mLengthCache := []; mInputIndice := [] |}.

(** Modelled from the spec: [ProximityInfoStateUtils::popInputData]
    (not in the sources) discards the most recently sampled point, i.e.
    pops the back of each of the five parallel vectors (spec 4.1). *)
Definition pop_back {A} (l : list A) : list A := take (pred (length l)) l.

Definition popInputData (tp : TouchPoints) : TouchPoints := {|
  mSampledInputXs := pop_back (mSampledInputXs tp);
  mSampledInputYs := pop_back (mSampledInputYs tp);
  mTimes := pop_back (mTimes tp);
  mLengthCache := pop_back (mLengthCache tp);
  mInputIndice := pop_back (mInputIndice tp) |}.

(** The arguments of [initInputParams]; a null coordinate pointer is
    [None]. *)
Record InputParams := {
  pointerId : Z;
  maxPointToKeyLength : Q;
  proximityInfo : ProximityInfo;
  inputCodes : list Z;
  inputSize : Z;
  xCoordinates : option (list Z);
  yCoordinates : option (list Z);
  times : list Z;
  pointerIds : list Z;
  isGeometric : bool
}.

Abbreviation KeySet := (gset nat).
Abbreviation CharProbabilities := (list (Z * Q)).

(** The helper functions called from this file whose code is elsewhere:
    ProximityInfoStateUtils, ProximityInfoUtils, char_utils and the
    inline members of proximity_info_state.h. *)
Record StateUtils := {
  (* updateTouchPoints(mostCommonKeyWidth, proximityInfo, maxPointToKeyLength,
       inputProximities, <input streams>, pushTouchPointStartIndex, <buffers>)
     returns the new sampled size and the updated buffers *)
  updateTouchPoints :
    Z -> ProximityInfo -> Q -> list Z -> InputParams -> Z -> TouchPoints ->
    nat * TouchPoints;
  (* refreshSpeedRates(<input streams>, lastSavedInputSize, sampledInputSize,
       <buffers>, speedRates, directions) returns the average speed *)
  refreshSpeedRates :
    InputParams -> nat -> nat -> TouchPoints -> list Q -> list Q ->
    Q * list Q * list Q;
  refreshBeelineSpeedRates :
    Z -> Q -> InputParams -> nat -> TouchPoints -> list Z -> list Z;
  (* updateAlignPointProbabilities(maxPointToKeyLength, mostCommonKeyWidth,
       keyCount, lastSavedInputSize, sampledInputSize, <buffers>, speedRates,
       distanceCache, nearKeysVector, charProbabilities): the near-key vector
     and the distributions are passed by pointer *)
  updateAlignPointProbabilities :
    Q -> Z -> nat -> nat -> nat -> TouchPoints -> list Q -> list Q ->
    list KeySet -> list CharProbabilities -> list KeySet * list CharProbabilities;
  pointToLineSegSquaredDistanceFloat : Z -> Z -> Z -> Z -> Z -> Z -> bool -> Q;
  toBaseLowerCase : Z -> Z;
  isSkippableCodePoint : Z -> bool;
  hasInputCoordinates : TouchPoints -> bool
}.

(* ------------------------------------------------------------------ *)
(** * The session state *)

Record ProximityInfoState := {
  mIsContinuationPossible : bool;
  mProximityInfo : option ProximityInfo;
  mHasTouchPositionCorrectionData : bool;
  mMostCommonKeyWidthSquare : Z;
  mKeyCount : nat;
  mCellHeight : Z;
  mCellWidth : Z;
  mGridHeight : Z;
  mGridWidth : Z;
  mInputProximities : list Z;
  mMaxPointToKeyLength : Q;
  mTouchPoints : TouchPoints;
  mDistanceCache_G : list Q;
  mNearKeysVector : list KeySet;
  mSearchKeysVector : list KeySet;
  mSpeedRates : list Q;
  mBeelineSpeedPercentiles : list Z;
  mCharProbabilities : list CharProbabilities;
  mDirections : list Q;
  mSampledInputSize : nat;
  mAverageSpeed : Q;
  mNormalizedSquaredDistances : list Z;
  mPrimaryInputWord : list Z;
  mTouchPositionCorrectionEnabled : bool
}.

(** Modelled from the spec: the constructor of [ProximityInfoState]
    (proximity_info_state.h, not in the sources): a session starts with
    no proximity info and empty buffers. *)
Definition freshState : ProximityInfoState := {|
  mIsContinuationPossible := false;
  mProximityInfo := None;
  mHasTouchPositionCorrectionData := false;
  mMostCommonKeyWidthSquare := 0;
  mKeyCount := 0;
  mCellHeight := 0; mCellWidth := 0; mGridHeight := 0; mGridWidth := 0;
  mInputProximities := replicate (MAX_PROXIMITY_CHARS_SIZE * MAX_WORD_LENGTH) 0;
  mMaxPointToKeyLength := 0%Q;
  mTouchPoints := emptyTouchPoints;
  mDistanceCache_G := [];
  mNearKeysVector := [];
  mSearchKeysVector := [];
  mSpeedRates := [];
  mBeelineSpeedPercentiles := [];
  mCharProbabilities := [];
  mDirections := [];
  mSampledInputSize := 0;
  mAverageSpeed := 0%Q;
  mNormalizedSquaredDistances :=
    replicate (MAX_PROXIMITY_CHARS_SIZE * MAX_WORD_LENGTH) NOT_A_DISTANCE;
  mPrimaryInputWord := replicate MAX_WORD_LENGTH 0;
  mTouchPositionCorrectionEnabled := false |}.

(** [v[i]] on an int vector. *)
Definition atZ (l : list Z) (i : Z) : Z := nth (Z.to_nat i) l 0.

(* ------------------------------------------------------------------ *)
(** * checkAndReturnIsContinuationPossible (lines 242-266) *)

Definition checkAndReturnIsContinuationPossible
    (s : ProximityInfoState) (inp : InputParams) : bool :=
  let tp := mTouchPoints s in
  let xs := default [] (xCoordinates inp) in
  let ys := default [] (yCoordinates inp) in
  if isGeometric inp then
    forallb (fun i =>
      let index := nth i (mInputIndice tp) 0 in
      negb (Z.ltb (inputSize inp) index
            || negb (Z.eqb (atZ xs index) (nth i (mSampledInputXs tp) 0))
            || negb (Z.eqb (atZ ys index) (nth i (mSampledInputYs tp) 0))
            || negb (Z.eqb (atZ (times inp) index) (nth i (mTimes tp) 0))))
      (seq 0 (mSampledInputSize s))
  else
    if Z.ltb (inputSize inp) (Z.of_nat (mSampledInputSize s)) then false
    else
      forallb (fun i =>
        negb (negb (Z.eqb (nth i xs 0) (nth i (mSampledInputXs tp) 0))
              || negb (Z.eqb (nth i ys 0) (nth i (mSampledInputYs tp) 0))))
        (seq 0 (Nat.min (mSampledInputSize s) MAX_WORD_LENGTH)).

(* ------------------------------------------------------------------ *)
(** * Point queries *)

(** getDuration (lines 285-290). *)
Definition getDuration (s : ProximityInfoState) (index : Z) : Z :=
  if (0 <=? index) && (index <? Z.of_nat (mSampledInputSize s) - 1) then
    atZ (mTimes (mTouchPoints s)) (index + 1) - atZ (mTimes (mTouchPoints s)) index
  else 0.

(** getLineToKeyDistance (lines 443-461). *)
Definition getLineToKeyDistance (U : StateUtils) (s : ProximityInfoState)
    (from to keyId : Z) (extend : bool) : Q :=
  let last := Z.of_nat (mSampledInputSize s) - 1 in
  if (from <? 0) || (last <? from) then 0%Q
  else if (to <? 0) || (last <? to) then 0%Q
  else
    let tp := mTouchPoints s in
    let x0 := atZ (mSampledInputXs tp) from in
    let y0 := atZ (mSampledInputYs tp) from in
    let x1 := atZ (mSampledInputXs tp) to in
    let y1 := atZ (mSampledInputYs tp) to in
    match mProximityInfo s with
    | Some pi =>
        let keyX := getKeyCenterXOfKeyIdG pi keyId in
        let keyY := getKeyCenterYOfKeyIdG pi keyId in
        pointToLineSegSquaredDistanceFloat U keyX keyY x0 y0 x1 y1 extend
    | None => 0%Q
    end.

(** getPointToKeyLength (lines 295-307). *)
Definition getPointToKeyLength (U : StateUtils) (s : ProximityInfoState)
    (inputIndex codePoint : Z) (scale : Q) : Q :=
  match mProximityInfo s with
  | None => 0%Q
  | Some pi =>
      let keyId := getKeyIndexOf pi codePoint in
      if negb (Z.eqb keyId NOT_AN_INDEX) then
        let index := inputIndex * Z.of_nat (getKeyCount pi) + keyId in
        fmin (nth (Z.to_nat index) (mDistanceCache_G s) 0%Q * scale)
             (mMaxPointToKeyLength s)
      else if isSkippableCodePoint U codePoint then 0%Q
      else inject_Z MAX_POINT_TO_KEY_LENGTH
  end.

(** Modelled from the spec: [getProximityCodePointsAt(index)]
    (proximity_info_state.h) is the slice of [mInputProximities] starting
    at [index * MAX_PROXIMITY_CHARS_SIZE]; entry [j] of the slice. *)
Definition proximityCodePointAt (s : ProximityInfoState) (index : Z) (j : nat) : Z :=
  nth (Z.to_nat index * MAX_PROXIMITY_CHARS_SIZE + j) (mInputProximities s) 0.

(** Outcome of one of the two scanning loops of [getMatchedProximityId]:
    a match at [j], or the loop stopped with the counter at [j]. *)
Inductive ScanResult := Matched (j : nat) | Stopped (j : nat).

(** [while (j < MAX_PROXIMITY_CHARS_SIZE && cps[j] > DELIMITER) { if matched
    return at j; ++j; }], with [fuel = MAX_PROXIMITY_CHARS_SIZE - j]. *)
Fixpoint scanProximity (cps : nat -> Z) (c baseLowerC : Z) (j fuel : nat) : ScanResult :=
  match fuel with
  | O => Stopped j
  | S fuel' =>
      if ADDITIONAL_PROXIMITY_CHAR_DELIMITER_CODE <? cps j then
        if (cps j =? baseLowerC) || (cps j =? c) then Matched j
        else scanProximity cps c baseLowerC (S j) fuel'
      else Stopped j
  end.

(** getMatchedProximityId (lines 334-384).  The second component is the
    value written through [proximityIndex] ([None]: not written). *)
Definition getMatchedProximityId (U : StateUtils) (s : ProximityInfoState)
    (index c : Z) (checkProximityChars : bool) : ProximityType * option nat :=
  let currentCodePoints := proximityCodePointAt s index in
  let firstCodePoint := currentCodePoints 0%nat in
  let baseLowerC := toBaseLowerCase U c in
  if (firstCodePoint =? baseLowerC) || (firstCodePoint =? c) then (EQUIVALENT_CHAR, None)
  else if negb checkProximityChars then (UNRELATED_CHAR, None)
  else if toBaseLowerCase U firstCodePoint =? baseLowerC then (NEAR_PROXIMITY_CHAR, None)
  else
    match scanProximity currentCodePoints c baseLowerC 1 (MAX_PROXIMITY_CHARS_SIZE - 1) with
    | Matched j => (NEAR_PROXIMITY_CHAR, Some j)
    | Stopped j =>
        if Nat.ltb j MAX_PROXIMITY_CHARS_SIZE
           && (currentCodePoints j =? ADDITIONAL_PROXIMITY_CHAR_DELIMITER_CODE) then
          match scanProximity currentCodePoints c baseLowerC (S j)
                  (MAX_PROXIMITY_CHARS_SIZE - S j) with
          | Matched j' => (ADDITIONAL_PROXIMITY_CHAR, Some j')
          | Stopped _ => (UNRELATED_CHAR, None)
          end
        else (UNRELATED_CHAR, None)
    end.

(** [mProximityInfo->getCodePointOf(k)]. *)
Definition codePointOf (s : ProximityInfoState) (k : Z) : Z :=
  match mProximityInfo s with
  | Some pi => getCodePointOf pi k
  | None => NOT_A_CODE
  end.

(** [mProximityInfo->getKeyCount()]. *)
Definition keyCountOf (s : ProximityInfoState) : nat :=
  match mProximityInfo s with
  | Some pi => getKeyCount pi
  | None => 0
  end.

(** getAllPossibleChars (lines 401-425): [filter] holds the first
    [filterSize] entries of the array; the result holds the first
    [newFilterSize] entries. *)
Definition getAllPossibleChars (s : ProximityInfoState) (index : nat)
    (filter : list Z) : list Z :=
  if Nat.leb (length (mSampledInputXs (mTouchPoints s))) index then filter
  else
    fold_left (fun acc j =>
      if bool_decide (j ∈ mSearchKeysVector s !!! index) then
        let keyCodePoint := codePointOf s (Z.of_nat j) in
        let insert := negb (existsb (fun f => f =? keyCodePoint) filter) in
        if insert then acc ++ [keyCodePoint] else acc
      else acc)
      (seq 0 (keyCountOf s)) filter.

(** The body of the loop of getAllPossibleChars for the search-key set
    [S] of the point, with [cp j] the code point of key [j]. *)
Definition possibleStep (S : KeySet) (cp : nat -> Z) (filter : list Z)
    (acc : list Z) (j : nat) : list Z :=
  if bool_decide (j ∈ S) then
    let keyCodePoint := cp j in
    if negb (existsb (fun f => f =? keyCodePoint) filter) then acc ++ [keyCodePoint] else acc
  else acc.

(** isKeyInSerchKeysAfterIndex (lines 427-431); the ASSERTs on [keyId]
    and [index] are not checked in release builds. *)
Definition isKeyInSerchKeysAfterIndex (s : ProximityInfoState) (index keyId : Z) : bool :=
  bool_decide (Z.to_nat keyId ∈ mSearchKeysVector s !!! Z.to_nat index).

(** The body of the inner loop of getMostProbableString (lines 473-481):
    the running minimum and the key it came from. *)
Definition mostProbableStep (acc : Q * Z) (entry : Z * Q) : Q * Z :=
  let '(minLogProbability, character) := acc in
  let '(key, value) := entry in
  let logProbability :=
    if negb (key =? NOT_AN_INDEX) then (value + DEMOTION_LOG_PROBABILITY)%Q else value in
  if Qltb logProbability minLogProbability then (logProbability, key)
  else (minLogProbability, character).

Definition mostProbableAt (d : CharProbabilities) : Q * Z :=
  fold_left mostProbableStep d (inject_Z MAX_POINT_TO_KEY_LENGTH, NOT_AN_INDEX).

(** The outer loop of getMostProbableString from point [i], with
    [fuel = mSampledInputSize - i]; [codePointBuf] holds the characters
    written so far ([index] is its length). *)
Fixpoint mostProbableLoop (s : ProximityInfoState) (i fuel : nat)
    (codePointBuf : list Z) (sumLogProbability : Q) : list Z * Q :=
  match fuel with
  | O => (codePointBuf, sumLogProbability)
  | S fuel' =>
      if Nat.ltb (length codePointBuf) (MAX_WORD_LENGTH - 1) then
        let '(minLogProbability, character) :=
          mostProbableAt (nth i (mCharProbabilities s) []) in
        let codePointBuf' :=
          if character =? NOT_AN_INDEX then codePointBuf
          else codePointBuf ++ [codePointOf s character] in
        mostProbableLoop s (S i) fuel' codePointBuf'
          (sumLogProbability + minLogProbability)%Q
      else (codePointBuf, sumLogProbability)
  end.

(** getMostProbableString (lines 465-490): the code points written before
    the terminating '\0', and the returned score. *)
Definition getMostProbableString (s : ProximityInfoState) : list Z * Q :=
  mostProbableLoop s 0 (mSampledInputSize s) [] 0%Q.

(** getProbability (lines 498-504): [mCharProbabilities[index].find(keyIndex)],
    the stored value if the key is in the distribution, otherwise
    MAX_POINT_TO_KEY_LENGTH. *)
Definition getProbability (s : ProximityInfoState) (index keyIndex : Z) : Q :=
  match find (fun e => fst e =? keyIndex) (nth (Z.to_nat index) (mCharProbabilities s) []) with
  | Some (_, value) => value
  | None => inject_Z MAX_POINT_TO_KEY_LENGTH
  end.

(* ------------------------------------------------------------------ *)
(** * initInputParams (lines 36-240) *)

(** Inner loop of lines 127-137 for point [i] at [(x, y)], from key [k],
    with [fuel = keyCount - k]. *)
Fixpoint distanceKeyLoop (pi : ProximityInfo) (keyCount i : nat) (x y : Z)
    (k fuel : nat) (distanceCache : list Q) (nearKeys : KeySet) : list Q * KeySet :=
  match fuel with
  | O => (distanceCache, nearKeys)
  | S fuel' =>
      let index := (i * keyCount + k)%nat in
      let normalizedSquaredDistance := getNormalizedSquaredDistanceFromCenterFloatG pi k x y in
      let distanceCache' := <[index := normalizedSquaredDistance]> distanceCache in
      let nearKeys' :=
        if Qltb normalizedSquaredDistance NEAR_KEY_NORMALIZED_SQUARED_THRESHOLD
        then {[k]} ∪ nearKeys else nearKeys in
      distanceKeyLoop pi keyCount i x y (S k) fuel' distanceCache' nearKeys'
  end.

(** Outer loop of lines 123-138 from point [i], [fuel = sampledInputSize - i]. *)
Fixpoint distancePointLoop (pi : ProximityInfo) (keyCount : nat) (tp : TouchPoints)
    (i fuel : nat) (distanceCache : list Q) (nearKeysVector searchKeysVector : list KeySet)
    : list Q * list KeySet * list KeySet :=
  match fuel with
  | O => (distanceCache, nearKeysVector, searchKeysVector)
  | S fuel' =>
      let nearKeysVector := <[i := ∅]> nearKeysVector in
      let searchKeysVector := <[i := ∅]> searchKeysVector in
      let x := nth i (mSampledInputXs tp) 0 in
      let y := nth i (mSampledInputYs tp) 0 in
      let '(distanceCache', nearKeys) :=
        distanceKeyLoop pi keyCount i x y 0 keyCount distanceCache (nearKeysVector !!! i) in
      distancePointLoop pi keyCount tp (S i) fuel' distanceCache'
        (<[i := nearKeys]> nearKeysVector) searchKeysVector
  end.

(** [static_cast<int>(hypotf(width, height) * 0.95f)] over the reals:
    floor (sqrt (0.9025 * (w^2 + h^2))). *)
Definition readForwordLength (pi : ProximityInfo) : Z :=
  let w := getKeyboardWidth pi in
  let h := getKeyboardHeight pi in
  Z.sqrt ((9025 * (w * w + h * h)) / 10000).

(** Inner loop of lines 155-160 for point [i], from [j],
    [fuel = sampledInputSize - j]; [acc] is [mSearchKeysVector[i]]. *)
Fixpoint searchKeysInnerLoop (lengthCache : list Z) (readForword : Z)
    (nearKeysVector : list KeySet) (i j fuel : nat) (acc : KeySet) : KeySet :=
  match fuel with
  | O => acc
  | S fuel' =>
      if readForword <=? nth j lengthCache 0 - nth i lengthCache 0 then acc
      else searchKeysInnerLoop lengthCache readForword nearKeysVector i (S j) fuel'
             (acc ∪ nearKeysVector !!! j)
  end.

(** Outer loop of lines 151-161 from [i], [fuel = sampledInputSize - i]. *)
Fixpoint searchKeysLoop (lengthCache : list Z) (readForword : Z)
    (nearKeysVector : list KeySet) (lastSavedInputSize sampledInputSize : nat)
    (i fuel : nat) (searchKeysVector : list KeySet) : list KeySet :=
  match fuel with
  | O => searchKeysVector
  | S fuel' =>
      let searchKeysVector :=
        if Nat.leb lastSavedInputSize i then <[i := ∅]> searchKeysVector
        else searchKeysVector in
      let j := Nat.max i lastSavedInputSize in
      let keys := searchKeysInnerLoop lengthCache readForword nearKeysVector i j
                    (sampledInputSize - j) (searchKeysVector !!! i) in
      searchKeysLoop lengthCache readForword nearKeysVector lastSavedInputSize
        sampledInputSize (S i) fuel' (<[i := keys]> searchKeysVector)
  end.

(** calculateSquaredDistanceFromSweetSpotCenter (lines 391-398). *)
Definition calculateSquaredDistanceFromSweetSpotCenter (pi : ProximityInfo)
    (tp : TouchPoints) (keyIndex : Z) (inputIndex : nat) : Q :=
  let sweetSpotCenterX := getSweetSpotCenterXAt pi keyIndex in
  let sweetSpotCenterY := getSweetSpotCenterYAt pi keyIndex in
  let inputX := inject_Z (nth inputIndex (mSampledInputXs tp) 0) in
  let inputY := inject_Z (nth inputIndex (mSampledInputYs tp) 0) in
  ((inputX - sweetSpotCenterX) * (inputX - sweetSpotCenterX)
   + (inputY - sweetSpotCenterY) * (inputY - sweetSpotCenterY))%Q.

(** calculateNormalizedSquaredDistance (lines 268-283). *)
Definition calculateNormalizedSquaredDistance (pi : ProximityInfo) (tp : TouchPoints)
    (keyIndex : Z) (inputIndex : nat) : Q :=
  if keyIndex =? NOT_AN_INDEX then NOT_A_DISTANCE_FLOAT
  else if negb (hasSweetSpotData pi keyIndex) then NOT_A_DISTANCE_FLOAT
  else if NOT_A_COORDINATE =? nth inputIndex (mSampledInputXs tp) 0 then NOT_A_DISTANCE_FLOAT
  else
    let squaredDistance := calculateSquaredDistanceFromSweetSpotCenter pi tp keyIndex inputIndex in
    let r := getSweetSpotRadiiAt pi keyIndex in
    (squaredDistance / (r * r))%Q.

(** Inner loop of lines 215-233 for point [i], from [j],
    [fuel = MAX_PROXIMITY_CHARS_SIZE - j]. *)
Fixpoint normalizedDistanceLoop (U : StateUtils) (pi : ProximityInfo) (tp : TouchPoints)
    (proximities : list Z) (i j fuel : nat) (distances : list Z) : list Z :=
  match fuel with
  | O => distances
  | S fuel' =>
      let currentCodePoint := nth (i * MAX_PROXIMITY_CHARS_SIZE + j) proximities 0 in
      if 0 <? currentCodePoint then
        let squaredDistance :=
          if hasInputCoordinates U tp
          then calculateNormalizedSquaredDistance pi tp (getKeyIndexOf pi currentCodePoint) i
          else NOT_A_DISTANCE_FLOAT in
        let value :=
          if Qle_bool 0 squaredDistance
          then Qfloor (squaredDistance * inject_Z NORMALIZED_SQUARED_DISTANCE_SCALING_FACTOR)
          else if Nat.eqb j 0 then EQUIVALENT_CHAR_WITHOUT_DISTANCE_INFO
          else PROXIMITY_CHAR_WITHOUT_DISTANCE_INFO in
        normalizedDistanceLoop U pi tp proximities i (S j) fuel'
          (<[(i * MAX_PROXIMITY_CHARS_SIZE + j)%nat := value]> distances)
      else distances
  end.

(** Outer loop of lines 205-234 from [i], [fuel = sampledInputSize - i]. *)
Fixpoint normalizedPointLoop (U : StateUtils) (pi : ProximityInfo) (tp : TouchPoints)
    (proximities : list Z) (i fuel : nat) (distances : list Z) : list Z :=
  match fuel with
  | O => distances
  | S fuel' =>
      normalizedPointLoop U pi tp proximities (S i) fuel'
        (normalizedDistanceLoop U pi tp proximities i 0 MAX_PROXIMITY_CHARS_SIZE distances)
  end.

(** Lines 201-203: [mPrimaryInputWord[i] = getPrimaryCodePointAt(i)], the
    first entry of the proximity list of [i]. *)
Definition primaryInputWordLoop (proximities : list Z) (n : nat) (word : list Z) : list Z :=
  fold_left (fun w i => <[i := nth (i * MAX_PROXIMITY_CHARS_SIZE) proximities 0]> w)
    (seq 0 n) word.

(** A pointer argument is not null. *)
Definition nonNull {A} (p : option A) : bool :=
  match p with Some _ => true | None => false end.

(** initInputParams (lines 36-240). *)
Definition initInputParams (U : StateUtils) (s : ProximityInfoState)
    (inp : InputParams) : ProximityInfoState :=
  let pi := proximityInfo inp in
  let isGeo := isGeometric inp in
  let isContinuationPossible := checkAndReturnIsContinuationPossible s inp in
  (* lines 52-57 *)
  let zeroProximities := replicate (MAX_PROXIMITY_CHARS_SIZE * MAX_WORD_LENGTH) 0 in
  let inputProximities :=
    if negb isGeo && (pointerId inp =? 0)
    then initializeProximities pi (inputCodes inp) (xCoordinates inp) (yCoordinates inp)
           (inputSize inp) zeroProximities
    else zeroProximities in
  let maxLength := maxPointToKeyLength inp in
  (* lines 61-85: reuse (after popping two points) or clear *)
  let '(pushTouchPointStartIndex, lastSavedInputSize, tp0, distanceCache0, nearKeys0,
        searchKeys0, speedRates0, beelineSpeeds0, charProbabilities0, directions0) :=
    if isContinuationPossible && Nat.ltb 1 (length (mInputIndice (mTouchPoints s))) then
      let indice := mInputIndice (mTouchPoints s) in
      let tp := popInputData (popInputData (mTouchPoints s)) in
      (nth (length indice - 2) indice 0, length (mSampledInputXs tp), tp,
       mDistanceCache_G s, mNearKeysVector s, mSearchKeysVector s, mSpeedRates s,
       mBeelineSpeedPercentiles s, mCharProbabilities s, mDirections s)
    else (0, 0%nat, emptyTouchPoints, [], [], [], [], [], [], []) in
  (* lines 90-98 *)
  let '(sampledInputSize, tp1) :=
    match xCoordinates inp, yCoordinates inp with
    | Some _, Some _ =>
        updateTouchPoints U (getMostCommonKeyWidth pi) pi maxLength inputProximities inp
          pushTouchPointStartIndex tp0
    | _, _ => (0%nat, tp0)
    end in
  (* lines 100-109 *)
  let '(averageSpeed, speedRates1, directions1, beelineSpeeds1) :=
    if Nat.ltb 0 sampledInputSize && isGeo then
      let '(avg, speedRates, directions) :=
        refreshSpeedRates U inp lastSavedInputSize sampledInputSize tp1 speedRates0 directions0 in
      (avg, speedRates, directions,
       refreshBeelineSpeedRates U (getMostCommonKeyWidth pi) avg inp sampledInputSize tp1
         beelineSpeeds0)
    else (mAverageSpeed s, speedRates0, directions0, beelineSpeeds0) in
  (* lines 118-163 *)
  let '(distanceCache2, nearKeys2, searchKeys2, charProbabilities2) :=
    if Nat.ltb 0 sampledInputSize then
      let keyCount := getKeyCount pi in
      let nearKeys := resize sampledInputSize ∅ nearKeys0 in
      let searchKeys := resize sampledInputSize ∅ searchKeys0 in
      let distanceCache := resize (sampledInputSize * keyCount) 0%Q distanceCache0 in
      let '(distanceCache, nearKeys, searchKeys) :=
        distancePointLoop pi keyCount tp1 lastSavedInputSize
          (sampledInputSize - lastSavedInputSize) distanceCache nearKeys searchKeys in
      if isGeo then
        let '(nearKeys, charProbabilities) :=
          updateAlignPointProbabilities U maxLength (getMostCommonKeyWidth pi) keyCount
            lastSavedInputSize sampledInputSize tp1 speedRates1 distanceCache nearKeys
            charProbabilities0 in
        (distanceCache, nearKeys,
         searchKeysLoop (mLengthCache tp1) (readForwordLength pi) nearKeys lastSavedInputSize
           sampledInputSize 0 sampledInputSize searchKeys,
         charProbabilities)
      else (distanceCache, nearKeys, searchKeys, charProbabilities0)
    else (distanceCache0, nearKeys0, searchKeys0, charProbabilities0) in
  (* lines 196-235 *)
  let touchPositionCorrectionEnabled :=
    Nat.ltb 0 sampledInputSize && hasTouchPositionCorrectionData pi
    && nonNull (xCoordinates inp) && nonNull (yCoordinates inp) in
  let distances0 := replicate (MAX_PROXIMITY_CHARS_SIZE * MAX_WORD_LENGTH) NOT_A_DISTANCE in
  let word0 := replicate MAX_WORD_LENGTH 0 in
  let '(primaryInputWord, normalizedSquaredDistances) :=
    if negb isGeo && (pointerId inp =? 0) then
      (primaryInputWordLoop inputProximities (Z.to_nat (inputSize inp)) word0,
       if touchPositionCorrectionEnabled
       then normalizedPointLoop U pi tp1 inputProximities 0 sampledInputSize distances0
       else distances0)
    else (word0, distances0) in
  {| mIsContinuationPossible := isContinuationPossible;
     mProximityInfo := Some pi;
     mHasTouchPositionCorrectionData := hasTouchPositionCorrectionData pi;
     mMostCommonKeyWidthSquare := getMostCommonKeyWidthSquare pi;
     mKeyCount := getKeyCount pi;
     mCellHeight := getCellHeight pi;
     mCellWidth := getCellWidth pi;
     mGridHeight := getGridWidth pi;
     mGridWidth := getGridHeight pi;
     mInputProximities := inputProximities;
     mMaxPointToKeyLength := maxLength;
     mTouchPoints := tp1;
     mDistanceCache_G := distanceCache2;
     mNearKeysVector := nearKeys2;
     mSearchKeysVector := searchKeys2;
     mSpeedRates := speedRates1;
     mBeelineSpeedPercentiles := beelineSpeeds1;
     mCharProbabilities := charProbabilities2;
     mDirections := directions1;
     mSampledInputSize := sampledInputSize;
     mAverageSpeed := averageSpeed;
     mNormalizedSquaredDistances := normalizedSquaredDistances;
     mPrimaryInputWord := primaryInputWord;
     mTouchPositionCorrectionEnabled := touchPositionCorrectionEnabled |}.

(** A session: successive calls of initInputParams on one instance. *)
Definition runSession (U : StateUtils) (s : ProximityInfoState)
    (inputs : list InputParams) : ProximityInfoState :=
  fold_left (initInputParams U) inputs s.

(* ------------------------------------------------------------------ *)
(** * Specification-side definitions *)

(** The value the decoder compares for one entry of a distribution:
    [it->second + DEMOTION_LOG_PROBABILITY] for a key, the raw value for
    the skip entry (key NOT_AN_INDEX). *)
Definition adjustedLogProbability (key : Z) (value : Q) : Q :=
  if negb (key =? NOT_AN_INDEX) then (value + DEMOTION_LOG_PROBABILITY)%Q else value.

(** [(minimum, character)] is a greedy choice for distribution [d]: the
    minimum is at most MAX_POINT_TO_KEY_LENGTH and at most every adjusted
    value of [d]; it is either the initial bound with no character, or the
    adjusted value of the entry of [d] it names. *)
Definition selectionOk (d : CharProbabilities) (minimum : Q) (character : Z) : Prop :=
  (minimum <= inject_Z MAX_POINT_TO_KEY_LENGTH)%Q /\
  (forall key value, In (key, value) d -> (minimum <= adjustedLogProbability key value)%Q) /\
  ((character = NOT_AN_INDEX /\ minimum = inject_Z MAX_POINT_TO_KEY_LENGTH) \/
   exists value, In (character, value) d /\ minimum = adjustedLogProbability character value).

(** The selection rule in the words of the spec (4.6): the skip entry is
    penalised by an additive constant [delta], keys are compared as they
    are. *)
Definition specMostProbableAt (delta : Q) (d : CharProbabilities) : Q * Z :=
  fold_left (fun acc entry =>
    let '(key, value) := entry in
    let logProbability := if key =? NOT_AN_INDEX then (value + delta)%Q else value in
    if Qltb logProbability (fst acc) then (logProbability, key) else acc)
    d (inject_Z MAX_POINT_TO_KEY_LENGTH, NOT_AN_INDEX).


(** The characters and the score of the outer loop after [n] points. *)
Definition greedyCharacters (s : ProximityInfoState) (i n : nat) : list Z :=
  map (codePointOf s)
    (List.filter (fun character => negb (character =? NOT_AN_INDEX))
       (map (fun j => snd (mostProbableAt (nth j (mCharProbabilities s) []))) (seq i n))).

Definition greedyScore (s : ProximityInfoState) (i n : nat) (sum : Q) : Q :=
  fold_left Qplus
    (map (fun j => fst (mostProbableAt (nth j (mCharProbabilities s) []))) (seq i n)) sum.

(** The state with the continuation flag and the average speed set aside:
    every buffer and every value the queries read. *)
Definition observe (s : ProximityInfoState) : ProximityInfoState := {|
  mIsContinuationPossible := false;
  mProximityInfo := mProximityInfo s;
  mHasTouchPositionCorrectionData := mHasTouchPositionCorrectionData s;
  mMostCommonKeyWidthSquare := mMostCommonKeyWidthSquare s;
  mKeyCount := mKeyCount s;
  mCellHeight := mCellHeight s;
  mCellWidth := mCellWidth s;
  mGridHeight := mGridHeight s;
  mGridWidth := mGridWidth s;
  mInputProximities := mInputProximities s;
  mMaxPointToKeyLength := mMaxPointToKeyLength s;
  mTouchPoints := mTouchPoints s;
  mDistanceCache_G := mDistanceCache_G s;
  mNearKeysVector := mNearKeysVector s;
  mSearchKeysVector := mSearchKeysVector s;
  mSpeedRates := mSpeedRates s;
  mBeelineSpeedPercentiles := mBeelineSpeedPercentiles s;
  mCharProbabilities := mCharProbabilities s;
  mDirections := mDirections s;
  mSampledInputSize := mSampledInputSize s;
  mAverageSpeed := 0%Q;
  mNormalizedSquaredDistances := mNormalizedSquaredDistances s;
  mPrimaryInputWord := mPrimaryInputWord s;
  mTouchPositionCorrectionEnabled := mTouchPositionCorrectionEnabled s |}.

(** The rows [0 .. m-1] of the distance cache and the near-key vector
    agree: key [k] is near point [i] exactly when the cached distance is
    below NEAR_KEY_NORMALIZED_SQUARED_THRESHOLD. *)
Definition rowsOk (kc : nat) (distanceCache : list Q) (nearKeysVector : list KeySet)
    (m : nat) : Prop :=
  forall i k, (i < m)%nat -> (k < kc)%nat ->
    (k ∈ nearKeysVector !!! i <->
     Qltb (nth (i * kc + k) distanceCache 0%Q) NEAR_KEY_NORMALIZED_SQUARED_THRESHOLD = true).

(** The rows of all sampled points agree, and the buffers are long enough. *)
Definition nearKeysInv (kc : nat) (t : ProximityInfoState) : Prop :=
  let m := length (mSampledInputXs (mTouchPoints t)) in
  rowsOk kc (mDistanceCache_G t) (mNearKeysVector t) m /\
  (m * kc <= length (mDistanceCache_G t))%nat /\
  (m <= length (mNearKeysVector t))%nat /\
  (mSampledInputSize t <= m)%nat.

(** The values the loop of lines 215-233 writes into
    [mNormalizedSquaredDistances] at position [p]: a scaled distance, or
    one of the two markers, EQUIVALENT_CHAR_WITHOUT_DISTANCE_INFO in the
    first column of a point and PROXIMITY_CHAR_WITHOUT_DISTANCE_INFO in
    the others. *)
Definition writtenDistanceOk (p : nat) (v : Z) : Prop :=
  0 <= v \/ ((p mod MAX_PROXIMITY_CHARS_SIZE = 0)%nat /\ v = EQUIVALENT_CHAR_WITHOUT_DISTANCE_INFO) \/
  ((p mod MAX_PROXIMITY_CHARS_SIZE <> 0)%nat /\ v = PROXIMITY_CHAR_WITHOUT_DISTANCE_INFO).

(* ------------------------------------------------------------------ *)
(** * Concrete collaborators (used by witnesses and counterexamples) *)

Module Demo.

(** Modelled from the spec: [toBaseLowerCase] of char_utils (not in the
    sources) maps a code point to its case- and accent-normalised form
    (spec 4.5); this instance folds the ASCII upper-case letters. *)
Definition asciiBaseLowerCase (c : Z) : Z :=
  if (65 <=? c) && (c <=? 90) then c + 32 else c.

(** Index of the first key with code point [c], or NOT_AN_INDEX. *)
Fixpoint indexOfCode (keys : list (Z * Z * Z)) (c k : Z) : Z :=
  match keys with
  | [] => NOT_AN_INDEX
  | (cp, _, _) :: rest => if cp =? c then k else indexOfCode rest c (k + 1)
  end.

(** Modelled from the spec: a geometry provider (spec 6) for a keyboard
    given by its keys [(code point, center x, center y)] and a common key
    width [w]; the normalised squared distance is the squared distance to
    the key center over [w * w]; [proximities] is the proximity array
    that [initializeProximities] writes. *)
Definition keyboard (keys : list (Z * Z * Z)) (w : Z) (proximities : list Z)
    : ProximityInfo := {|
  hasTouchPositionCorrectionData := false;
  getMostCommonKeyWidth := w;
  getMostCommonKeyWidthSquare := w * w;
  getKeyCount := length keys;
  getCellHeight := 1; getCellWidth := 1; getGridWidth := 1; getGridHeight := 1;
  getKeyboardWidth := 100;
  getKeyboardHeight := 50;
  getKeyIndexOf := fun c => indexOfCode keys c 0;
  getCodePointOf := fun k => let '(cp, _, _) := nth (Z.to_nat k) keys (NOT_A_CODE, 0, 0) in cp;
  getNormalizedSquaredDistanceFromCenterFloatG := fun k x y =>
    let '(_, cx, cy) := nth k keys (NOT_A_CODE, 0, 0) in
    (inject_Z ((x - cx) * (x - cx) + (y - cy) * (y - cy)) / inject_Z (w * w))%Q;
  hasSweetSpotData := fun _ => false;
  getSweetSpotCenterXAt := fun _ => 0%Q;
  getSweetSpotCenterYAt := fun _ => 0%Q;
  getSweetSpotRadiiAt := fun _ => 1%Q;
  getKeyCenterXOfKeyIdG := fun k => let '(_, cx, _) := nth (Z.to_nat k) keys (0, 0, 0) in cx;
  getKeyCenterYOfKeyIdG := fun k => let '(_, _, cy) := nth (Z.to_nat k) keys (0, 0, 0) in cy;
  initializeProximities := fun _ _ _ _ arr => proximities ++ drop (length proximities) arr
|}.

(** Appends input point [i] to the sampled buffers; the length cache
    grows by the (integer) distance to the previous sampled point. *)
Definition pushPoint (inp : InputParams) (tp : TouchPoints) (i : nat) : TouchPoints :=
  let x := nth i (default [] (xCoordinates inp)) 0 in
  let y := nth i (default [] (yCoordinates inp)) 0 in
  let len :=
    match last (mLengthCache tp), last (mSampledInputXs tp), last (mSampledInputYs tp) with
    | Some l, Some px, Some py => l + Z.sqrt ((x - px) * (x - px) + (y - py) * (y - py))
    | _, _, _ => 0
    end in
  {| mSampledInputXs := mSampledInputXs tp ++ [x];
     mSampledInputYs := mSampledInputYs tp ++ [y];
     mTimes := mTimes tp ++ [nth i (times inp) 0];
     mLengthCache := mLengthCache tp ++ [len];
     mInputIndice := mInputIndice tp ++ [Z.of_nat i] |}.

(** Modelled from the spec: [updateTouchPoints] (not in the sources) as the
    resampler that accepts every input point 1:1 (spec 4.1), from
    [pushTouchPointStartIndex] on; it returns the new sample count. *)
Definition sampleEveryPoint (inp : InputParams) (start : Z) (tp : TouchPoints)
    : nat * TouchPoints :=
  let tp' := fold_left (pushPoint inp)
               (seq (Z.to_nat start) (Z.to_nat (inputSize inp) - Z.to_nat start)) tp in
  (length (mSampledInputXs tp'), tp').

(** Modelled from the spec: the remaining helpers; kinematic features and
    the alignment model are constants (spec 4.3 and 4.4 leave their
    formulas to the utilities), the alignment model leaves the near keys
    unchanged. *)
Definition utils : StateUtils := {|
  updateTouchPoints := fun _ _ _ _ inp start tp => sampleEveryPoint inp start tp;
  refreshSpeedRates := fun _ _ n _ speedRates directions =>
    (1%Q, resize n 1%Q speedRates, resize n 0%Q directions);
  refreshBeelineSpeedRates := fun _ _ _ n _ beeline => resize n 0 beeline;
  updateAlignPointProbabilities := fun _ _ _ _ n _ _ _ nearKeys charProbabilities =>
    (nearKeys, resize n [] charProbabilities);
  pointToLineSegSquaredDistanceFloat := fun _ _ _ _ _ _ _ => 0%Q;
  toBaseLowerCase := asciiBaseLowerCase;
  isSkippableCodePoint := fun c => c =? 39;
  hasInputCoordinates := fun tp => negb (bool_decide (mSampledInputXs tp = []))
|}.

(** A tap or gesture input on keyboard [pi]. *)
Definition input (pi : ProximityInfo) (geo : bool) (maxLength : Q)
    (pts : list (Z * Z)) : InputParams := {|
  pointerId := 0;
  maxPointToKeyLength := maxLength;
  proximityInfo := pi;
  inputCodes := [];
  inputSize := Z.of_nat (length pts);
  xCoordinates := Some (map fst pts);
  yCoordinates := Some (map snd pts);
  times := map (fun i => 10 * Z.of_nat i) (seq 0 (length pts));
  pointerIds := map (fun _ => 0) pts;
  isGeometric := geo |}.

(** Keyboard with 'a' at (0,0), 's' at (10,0) and 'd' at (20,0). *)
Definition asd : ProximityInfo :=
  keyboard [(97, 0, 0); (115, 10, 0); (100, 20, 0)] 10 [65; 97; 115; 2; 100].

(** Keyboard with two keys of code point 'a' side by side. *)
Definition twoA : ProximityInfo := keyboard [(97, 0, 0); (97, 5, 0)] 10 [].

(** Keyboard 'a', 's', 'd' whose proximity list is [a, s, d, DELIM, f]. *)
Definition asdf : ProximityInfo :=
  keyboard [(97, 0, 0); (115, 10, 0); (100, 20, 0)] 10 [97; 115; 100; 2; 102].

(** One call with a tap or gesture input from a fresh instance. *)
Definition fresh (pi : ProximityInfo) (geo : bool) (maxLength : Q) (pts : list (Z * Z))
    : ProximityInfoState :=
  initInputParams utils freshState (input pi geo maxLength pts).

(** Taps and gestures used by the witnesses. *)
Definition tapA : ProximityInfoState := fresh asd false 5 [(0, 0)].
Definition tapB : InputParams := input asd false 5 [(7, 7)].
Definition tapBfresh : ProximityInfoState := fresh asd false 5 [(7, 7)].
Definition tapAS : InputParams := input asd false 5 [(0, 0); (10, 0)].
Definition gestureA : ProximityInfoState := fresh asd true 5 [(0, 0)].
Definition gestureAS : ProximityInfoState := fresh asd true 5 [(0, 0); (10, 0)].
Definition tapF : ProximityInfoState := fresh asdf false 5 [(0, 0)].
(** A two-point gesture over 'a' and 's'. *)
Definition swipe : list InputParams := [input asd true 5 [(0, 0); (10, 0)]].

(** A state whose points carry the distributions [probs] (as
    [updateAlignPointProbabilities] leaves them) on keyboard [pi]. *)
Definition decoderState (pi : ProximityInfo) (probs : list CharProbabilities)
    : ProximityInfoState := {|
  mIsContinuationPossible := false;
  mProximityInfo := Some pi;
  mHasTouchPositionCorrectionData := false;
  mMostCommonKeyWidthSquare := getMostCommonKeyWidthSquare pi;
  mKeyCount := getKeyCount pi;
  mCellHeight := 1; mCellWidth := 1; mGridHeight := 1; mGridWidth := 1;
  mInputProximities := replicate (MAX_PROXIMITY_CHARS_SIZE * MAX_WORD_LENGTH) 0;
  mMaxPointToKeyLength := 5%Q;
  mTouchPoints := emptyTouchPoints;
  mDistanceCache_G := [];
  mNearKeysVector := [];
  mSearchKeysVector := [];
  mSpeedRates := [];
  mBeelineSpeedPercentiles := [];
  mCharProbabilities := probs;
  mDirections := [];
  mSampledInputSize := length probs;
  mAverageSpeed := 1%Q;
  mNormalizedSquaredDistances :=
    replicate (MAX_PROXIMITY_CHARS_SIZE * MAX_WORD_LENGTH) NOT_A_DISTANCE;
  mPrimaryInputWord := replicate MAX_WORD_LENGTH 0;
  mTouchPositionCorrectionEnabled := false |}.

(** Keyboard [asd] with touch position correction data: each key has a
    sweet spot at its center with radius 10. *)
Definition sweetAsd : ProximityInfo := {|
  hasTouchPositionCorrectionData := true;
  getMostCommonKeyWidth := getMostCommonKeyWidth asd;
  getMostCommonKeyWidthSquare := getMostCommonKeyWidthSquare asd;
  getKeyCount := getKeyCount asd;
  getCellHeight := getCellHeight asd; getCellWidth := getCellWidth asd;
  getGridWidth := getGridWidth asd; getGridHeight := getGridHeight asd;
  getKeyboardWidth := getKeyboardWidth asd;
  getKeyboardHeight := getKeyboardHeight asd;
  getKeyIndexOf := getKeyIndexOf asd;
  getCodePointOf := getCodePointOf asd;
  getNormalizedSquaredDistanceFromCenterFloatG := getNormalizedSquaredDistanceFromCenterFloatG asd;
  hasSweetSpotData := fun k => (0 <=? k) && (k <? 3);
  getSweetSpotCenterXAt := fun k => inject_Z (getKeyCenterXOfKeyIdG asd k);
  getSweetSpotCenterYAt := fun k => inject_Z (getKeyCenterYOfKeyIdG asd k);
  getSweetSpotRadiiAt := fun _ => 10%Q;
  getKeyCenterXOfKeyIdG := getKeyCenterXOfKeyIdG asd;
  getKeyCenterYOfKeyIdG := getKeyCenterYOfKeyIdG asd;
  initializeProximities := initializeProximities asd
|}.

(** A one-point tap whose x coordinate pointer is null. *)
Definition tapNoCoordinates : InputParams := {|
  pointerId := 0; maxPointToKeyLength := 5; proximityInfo := asd; inputCodes := [];
  inputSize := 1; xCoordinates := None; yCoordinates := Some [0]; times := [0];
  pointerIds := [0]; isGeometric := false |}.

Definition sweetTapA : ProximityInfoState := fresh sweetAsd false 5 [(0, 0)].
(** A three-point tap input, and its continuation by a fourth point. *)
Definition tapASD : ProximityInfoState := fresh asd false 5 [(0, 0); (10, 0); (20, 0)].
Definition tapASDA : InputParams := input asd false 5 [(0, 0); (10, 0); (20, 0); (0, 0)].
Definition gestureASinput : InputParams := input asd true 5 [(0, 0); (10, 0)].
(** One distribution: the skip entry, key 0 and key 1. *)
Definition probs : list CharProbabilities :=
  [[(NOT_AN_INDEX, 2%Q); (0%Z, (1 # 2)%Q); (1%Z, 3%Q)]].

End Demo.

(* ------------------------------------------------------------------ *)
(** * Auxiliary lemmas *)

Lemma Qltb_true (x y : Q) : Qltb x y = true -> (x < y)%Q.
Proof.
  unfold Qltb. intros H. apply negb_true_iff in H.
  apply Qnot_le_lt. intros Hle. apply Qle_bool_iff in Hle. congruence.
Qed.

Lemma Qltb_false (x y : Q) : Qltb x y = false -> (y <= x)%Q.
Proof.
  unfold Qltb. intros H. apply negb_false_iff in H. now apply Qle_bool_iff.
Qed.

Lemma Qltb_iff (x y : Q) : Qltb x y = true <-> (x < y)%Q.
Proof.
  split; [apply Qltb_true|]. intros Hlt.
  destruct (Qltb x y) eqn:E; [reflexivity|].
  apply Qltb_false in E. exfalso. now apply (Qlt_not_le x y).
Qed.

Lemma fmin_le_r (a b : Q) : (fmin a b <= b)%Q.
Proof.
  unfold fmin. destruct (Qltb b a) eqn:E.
  - apply Qle_refl.
  - now apply Qltb_false.
Qed.

(** Case analysis on the integer comparisons of a goal, discarding the
    branches that contradict the arithmetic hypotheses. *)
Ltac split_Z_tests :=
  repeat match goal with
  | |- context [?x =? ?y] =>
      let H := fresh "Heq" in destruct (Z.eqb_spec x y) as [H|H]; try (exfalso; lia)
  | |- context [?x <? ?y] =>
      let H := fresh "Hlt" in destruct (Z.ltb_spec x y) as [H|H]; try (exfalso; lia)
  | |- context [?x <=? ?y] =>
      let H := fresh "Hle" in destruct (Z.leb_spec x y) as [H|H]; try (exfalso; lia)
  end.

(** Evaluates the integer tests of a goal that the arithmetic hypotheses
    decide, then reduces. *)
Ltac eval_Z_tests :=
  repeat (progress (cbn [scanProximity MAX_PROXIMITY_CHARS_SIZE Nat.sub Nat.ltb Nat.leb
                          andb orb negb Nat.eqb];
                    unfold ADDITIONAL_PROXIMITY_CHAR_DELIMITER_CODE;
                    repeat match goal with
                    | H : proximityCodePointAt _ _ _ = _ |- _ => rewrite H
                    end;
                    repeat match goal with
                    | |- context [?x =? ?y] =>
                        first [ rewrite (Z.eqb_refl x)
                              | rewrite (proj2 (Z.eqb_neq x y)) by lia ]
                    | |- context [?x <? ?y] =>
                        first [ rewrite (proj2 (Z.ltb_lt x y)) by lia
                              | rewrite (proj2 (Z.ltb_ge x y)) by lia ]
                    end));
  try reflexivity.

(* ------------------------------------------------------------------ *)
(** * Claims *)

(** C5. In tap mode ([isGeometric] false) the continuation check succeeds
    exactly when the new input is at least as long as the sampled size and
    the first [min(sampledInputSize, MAX_WORD_LENGTH)] coordinate pairs of
    the new stream equal the stored sampled coordinates. *)
Theorem checkAndReturnIsContinuationPossible_tap (s : ProximityInfoState)
    (inp : InputParams) :
  isGeometric inp = false ->
  (checkAndReturnIsContinuationPossible s inp = true <->
   Z.of_nat (mSampledInputSize s) <= inputSize inp /\
   forall i, (i < Nat.min (mSampledInputSize s) MAX_WORD_LENGTH)%nat ->
     nth i (default [] (xCoordinates inp)) 0 = nth i (mSampledInputXs (mTouchPoints s)) 0 /\
     nth i (default [] (yCoordinates inp)) 0 = nth i (mSampledInputYs (mTouchPoints s)) 0).
Proof.
  intros Hgeo. unfold checkAndReturnIsContinuationPossible. rewrite Hgeo.
  destruct (Z.ltb_spec (inputSize inp) (Z.of_nat (mSampledInputSize s))) as [Hlt|Hge].
  - split; [discriminate | intros [Hle _]; lia].
  - rewrite forallb_forall. split.
    + intros Hall. split; [lia|]. intros i Hi.
      assert (Hin : In i (seq 0 (Nat.min (mSampledInputSize s) MAX_WORD_LENGTH)))
        by (apply in_seq; lia).
      specialize (Hall i Hin). apply negb_true_iff, orb_false_iff in Hall as [Hx Hy].
      apply negb_false_iff, Z.eqb_eq in Hx, Hy. auto.
    + intros [_ Hall] i Hin. apply in_seq in Hin.
      destruct (Hall i ltac:(lia)) as [-> ->]. now rewrite !Z.eqb_refl.
Qed.

(** C8. Out-of-range point indices give neutral values: [getDuration] is 0
    for an index outside [0, sampledInputSize), and [getLineToKeyDistance]
    is 0 when [from] or [to] is outside [0, sampledInputSize).  Both are
    pure reads of the state. *)
Theorem out_of_range_queries_neutral (U : StateUtils) (s : ProximityInfoState)
    (index from to keyId : Z) (extend : bool) :
  ((index < 0 \/ Z.of_nat (mSampledInputSize s) <= index) -> getDuration s index = 0) /\
  ((from < 0 \/ Z.of_nat (mSampledInputSize s) <= from
    \/ to < 0 \/ Z.of_nat (mSampledInputSize s) <= to) ->
   getLineToKeyDistance U s from to keyId extend = 0%Q).
Proof.
  split; intros Hout.
  - unfold getDuration. split_Z_tests; reflexivity.
  - unfold getLineToKeyDistance. split_Z_tests; reflexivity.
Qed.

(** C10. [getDuration] is 0 at the last sampled point (index
    [sampledInputSize - 1]); a nonzero duration only comes from an index in
    [0, sampledInputSize - 1), where it is the time difference to the
    following sampled point. *)
Theorem getDuration_last_point (s : ProximityInfoState) (index : Z) :
  getDuration s (Z.of_nat (mSampledInputSize s) - 1) = 0 /\
  (getDuration s index <> 0 -> 0 <= index < Z.of_nat (mSampledInputSize s) - 1) /\
  (0 <= index < Z.of_nat (mSampledInputSize s) - 1 ->
   getDuration s index =
     atZ (mTimes (mTouchPoints s)) (index + 1) - atZ (mTimes (mTouchPoints s)) index).
Proof.
  unfold getDuration. split; [|split].
  - split_Z_tests; reflexivity.
  - split_Z_tests; simpl; intros H; try lia; congruence.
  - intros Hr. split_Z_tests; reflexivity.
Qed.

(** C4 (as corrected). For a code point that has a key, the length is
    [min(distance * scale, maxPointToKeyLength)], with [distance] the
    cached entry [inputIndex * keyCount + keyId] of mDistanceCache_G, and
    never exceeds
    [maxPointToKeyLength]; a code point without a key gives 0 when it is
    skippable and [MAX_POINT_TO_KEY_LENGTH] otherwise. *)
Theorem getPointToKeyLength_cases (U : StateUtils) (s : ProximityInfoState)
    (pi : ProximityInfo) (inputIndex codePoint : Z) (scale : Q) :
  mProximityInfo s = Some pi ->
  (getKeyIndexOf pi codePoint <> NOT_AN_INDEX ->
   getPointToKeyLength U s inputIndex codePoint scale =
     fmin (nth (Z.to_nat (inputIndex * Z.of_nat (getKeyCount pi) + getKeyIndexOf pi codePoint))
              (mDistanceCache_G s) 0%Q * scale)
          (mMaxPointToKeyLength s) /\
   (getPointToKeyLength U s inputIndex codePoint scale <= mMaxPointToKeyLength s)%Q) /\
  (getKeyIndexOf pi codePoint = NOT_AN_INDEX -> isSkippableCodePoint U codePoint = true ->
   getPointToKeyLength U s inputIndex codePoint scale = 0%Q) /\
  (getKeyIndexOf pi codePoint = NOT_AN_INDEX -> isSkippableCodePoint U codePoint = false ->
   getPointToKeyLength U s inputIndex codePoint scale = inject_Z MAX_POINT_TO_KEY_LENGTH).
Proof.
  intros Hpi. unfold getPointToKeyLength. rewrite Hpi. split; [|split].
  - intros Hkey. apply Z.eqb_neq in Hkey. rewrite Hkey. simpl.
    split; [reflexivity|apply fmin_le_r].
  - intros Hkey Hskip. rewrite Hkey, Z.eqb_refl, Hskip. reflexivity.
  - intros Hkey Hskip. rewrite Hkey, Z.eqb_refl, Hskip. reflexivity.
Qed.

(** C3 (as corrected). For a point whose proximity list is
    [primary, a, b, DELIM, c] followed by the end of the list, where the
    four characters are pairwise distinct code points above the delimiter
    and each is its own base-lower-case form, with proximity checking on:
    [primary] is EQUIVALENT_CHAR, [a] is NEAR_PROXIMITY_CHAR at index 1,
    [c] is ADDITIONAL_PROXIMITY_CHAR at index 4, and a target that is not
    in the list and whose base-lower-case form is not in the list is
    UNRELATED_CHAR. *)
Theorem getMatchedProximityId_priority (U : StateUtils) (s : ProximityInfoState)
    (index primary a b c target : Z) :
  proximityCodePointAt s index 0 = primary ->
  proximityCodePointAt s index 1 = a ->
  proximityCodePointAt s index 2 = b ->
  proximityCodePointAt s index 3 = ADDITIONAL_PROXIMITY_CHAR_DELIMITER_CODE ->
  proximityCodePointAt s index 4 = c ->
  proximityCodePointAt s index 5 <= ADDITIONAL_PROXIMITY_CHAR_DELIMITER_CODE ->
  Forall (fun x => ADDITIONAL_PROXIMITY_CHAR_DELIMITER_CODE < x /\ toBaseLowerCase U x = x)
    [primary; a; b; c] ->
  List.NoDup [primary; a; b; c] ->
  getMatchedProximityId U s index primary true = (EQUIVALENT_CHAR, None) /\
  getMatchedProximityId U s index a true = (NEAR_PROXIMITY_CHAR, Some 1%nat) /\
  getMatchedProximityId U s index c true = (ADDITIONAL_PROXIMITY_CHAR, Some 4%nat) /\
  (~ In target [primary; a; b; c] -> ~ In (toBaseLowerCase U target) [primary; a; b; c] ->
   getMatchedProximityId U s index target true = (UNRELATED_CHAR, None)).
Proof.
  intros H0 H1 H2 H3 H4 H5 Hchars Hnodup.
  repeat match goal with
         | H : Forall _ (_ :: _) |- _ => inversion_clear H
         end.
  repeat match goal with H : _ /\ _ |- _ => destruct H end.
  apply NoDup_cons_iff in Hnodup as [Hp Hnodup]. apply NoDup_cons_iff in Hnodup as [Ha Hnodup].
  apply NoDup_cons_iff in Hnodup as [Hb _].
  assert (primary <> a /\ primary <> b /\ primary <> c /\ a <> b /\ a <> c /\ b <> c)
    by (simpl in Hp, Ha, Hb; intuition).
  clear Hp Ha Hb.
  unfold getMatchedProximityId.
  cbn [scanProximity MAX_PROXIMITY_CHARS_SIZE Nat.sub Nat.ltb Nat.leb].
  rewrite H0, H1, H2, H3, H4.
  unfold ADDITIONAL_PROXIMITY_CHAR_DELIMITER_CODE in *.
  repeat match goal with H : toBaseLowerCase U ?x = ?x |- _ => rewrite H; clear H end.
  split; [|split; [|split]]; [eval_Z_tests .. |].
  intros Ht Hbt.
  assert (primary <> target /\ a <> target /\ b <> target /\ c <> target)
    by (simpl in Ht; intuition).
  assert (primary <> toBaseLowerCase U target /\ a <> toBaseLowerCase U target /\
          b <> toBaseLowerCase U target /\ c <> toBaseLowerCase U target)
    by (simpl in Hbt; intuition).
  clear Ht Hbt.
  set (bt := toBaseLowerCase U target) in *.
  eval_Z_tests.
Qed.

(** The inner loop of getMostProbableString keeps a minimum below its
    start, below every adjusted value seen, and coming from its start or
    from an entry. *)
Lemma mostProbable_fold (d : CharProbabilities) (m0 : Q) (c0 : Z) :
  let '(m, c) := fold_left mostProbableStep d (m0, c0) in
  (m <= m0)%Q /\
  (forall key value, In (key, value) d -> (m <= adjustedLogProbability key value)%Q) /\
  ((m = m0 /\ c = c0) \/ exists value, In (c, value) d /\ m = adjustedLogProbability c value).
Proof.
  revert m0 c0. induction d as [|[key value] d IH]; intros m0 c0; simpl.
  - split; [apply Qle_refl|]. split; [tauto|]. left; auto.
  - change (if negb (key =? NOT_AN_INDEX) then (value + DEMOTION_LOG_PROBABILITY)%Q
            else value) with (adjustedLogProbability key value).
    destruct (Qltb (adjustedLogProbability key value) m0) eqn:Hlt.
    + apply Qltb_true in Hlt.
      specialize (IH (adjustedLogProbability key value) key).
      destruct (fold_left mostProbableStep d (adjustedLogProbability key value, key))
        as [m c] eqn:Hf.
      destruct IH as (Hle & Hall & Hsrc). split; [|split].
      * apply Qle_trans with (adjustedLogProbability key value); [exact Hle|].
        now apply Qlt_le_weak.
      * intros k v [Heq|Hin]; [injection Heq as <- <-; exact Hle | now apply Hall].
      * right. destruct Hsrc as [[-> ->]|(v & Hin & ->)]; eauto.
    + apply Qltb_false in Hlt.
      specialize (IH m0 c0).
      destruct (fold_left mostProbableStep d (m0, c0)) as [m c] eqn:Hf.
      destruct IH as (Hle & Hall & Hsrc). split; [exact Hle|]. split.
      * intros k v [Heq|Hin]; [injection Heq as <- <- | now apply Hall].
        apply Qle_trans with m0; assumption.
      * destruct Hsrc as [Hsame|(v & Hin & ->)]; [left; exact Hsame | right; eauto].
Qed.

Lemma mostProbableAt_selectionOk (d : CharProbabilities) :
  selectionOk d (fst (mostProbableAt d)) (snd (mostProbableAt d)).
Proof.
  unfold mostProbableAt, selectionOk.
  pose proof (mostProbable_fold d (inject_Z MAX_POINT_TO_KEY_LENGTH) NOT_AN_INDEX) as H.
  destruct (fold_left mostProbableStep d _) as [m c]. simpl.
  destruct H as (Hle & Hall & [[-> ->]|Hsrc]); auto.
Qed.

Lemma greedyCharacters_S (s : ProximityInfoState) (i m : nat) :
  greedyCharacters s i (S m) =
  (if snd (mostProbableAt (nth i (mCharProbabilities s) [])) =? NOT_AN_INDEX then []
   else [codePointOf s (snd (mostProbableAt (nth i (mCharProbabilities s) [])))]) ++
  greedyCharacters s (S i) m.
Proof.
  unfold greedyCharacters. cbn [seq map List.filter].
  destruct (snd (mostProbableAt (nth i (mCharProbabilities s) [])) =? NOT_AN_INDEX); reflexivity.
Qed.

Lemma mostProbableLoop_spec (s : ProximityInfoState) (fuel i : nat)
    (codePointBuf : list Z) (sum : Q) :
  (length codePointBuf <= MAX_WORD_LENGTH - 1)%nat ->
  exists n, (n <= fuel)%nat /\
    (forall m, (m < n)%nat ->
       (length codePointBuf + length (greedyCharacters s i m) < MAX_WORD_LENGTH - 1)%nat) /\
    ((n < fuel)%nat ->
       (length codePointBuf + length (greedyCharacters s i n) = MAX_WORD_LENGTH - 1)%nat) /\
    mostProbableLoop s i fuel codePointBuf sum =
      (codePointBuf ++ greedyCharacters s i n, greedyScore s i n sum).
Proof.
  revert i codePointBuf sum. induction fuel as [|fuel IH]; intros i buf sum Hlen.
  - exists 0%nat. simpl. rewrite app_nil_r. split; [lia|]. split; [intros m Hm; lia|].
    split; [intros Hm; lia|reflexivity].
  - cbn [mostProbableLoop]. destruct (Nat.ltb_spec (length buf) (MAX_WORD_LENGTH - 1)) as [Hlt|Hge].
    + destruct (mostProbableAt (nth i (mCharProbabilities s) [])) as [m ch] eqn:Hpick.
      set (buf' := if ch =? NOT_AN_INDEX then buf else buf ++ [codePointOf s ch]).
      assert (Hlen' : (length buf' <= MAX_WORD_LENGTH - 1)%nat).
      { unfold buf'. destruct (ch =? NOT_AN_INDEX); [lia|].
        rewrite length_app; simpl; unfold MAX_WORD_LENGTH in *; lia. }
      assert (Hstep : forall k, (length buf + length (greedyCharacters s i (S k)) =
                                 length buf' + length (greedyCharacters s (S i) k))%nat).
      { intros k. rewrite greedyCharacters_S, Hpick. simpl. unfold buf'.
        destruct (ch =? NOT_AN_INDEX); rewrite ?length_app; simpl; lia. }
      destruct (IH (S i) buf' (sum + m)%Q Hlen') as (n & Hn & Hbefore & Hfull & Heq).
      exists (S n). split; [lia|]. split; [|split].
      * intros [|k] Hk; [unfold MAX_WORD_LENGTH in *; simpl; lia|]. rewrite Hstep. apply Hbefore. lia.
      * intros Hn'. rewrite Hstep. apply Hfull. lia.
      * rewrite Heq. unfold greedyCharacters, greedyScore. simpl. rewrite Hpick. simpl.
        unfold buf'. destruct (ch =? NOT_AN_INDEX); simpl; [reflexivity|].
        now rewrite <- app_assoc.
    + exists 0%nat. split; [lia|]. split; [intros k Hk; lia|]. split.
      * intros _. simpl. unfold MAX_WORD_LENGTH in *. lia.
      * simpl. now rewrite app_nil_r.
Qed.

(** C2 (as corrected). getMostProbableString is greedy: it processes the
    points in order and stops after [n] points, where [n] is the first
    point count at which [MAX_WORD_LENGTH - 1] characters are written, or
    [mSampledInputSize] if that never happens: before point [n] fewer than
    [MAX_WORD_LENGTH - 1] characters are written, and stopping before the
    last point means exactly [MAX_WORD_LENGTH - 1] are.  At each point it
    keeps the entry with the lowest adjusted value, where
    DEMOTION_LOG_PROBABILITY is added to every real key and the skip entry
    (NOT_AN_INDEX) is compared unadjusted, starting from the bound
    MAX_POINT_TO_KEY_LENGTH; the key's character is appended unless the
    kept entry is the skip entry (or none beat the bound), and the score is
    the sum of the per-point minima. *)
Theorem getMostProbableString_greedy (s : ProximityInfoState) :
  exists n, (n <= mSampledInputSize s)%nat /\
    (forall m, (m < n)%nat -> (length (greedyCharacters s 0 m) < MAX_WORD_LENGTH - 1)%nat) /\
    ((n < mSampledInputSize s)%nat ->
     length (greedyCharacters s 0 n) = (MAX_WORD_LENGTH - 1)%nat) /\
    getMostProbableString s = (greedyCharacters s 0 n, greedyScore s 0 n 0%Q) /\
    forall i, selectionOk (nth i (mCharProbabilities s) [])
                (fst (mostProbableAt (nth i (mCharProbabilities s) [])))
                (snd (mostProbableAt (nth i (mCharProbabilities s) []))).
Proof.
  destruct (mostProbableLoop_spec s (mSampledInputSize s) 0 [] 0%Q)
    as (n & Hn & Hbefore & Hfull & Heq).
  { simpl. lia. }
  exists n. unfold getMostProbableString. split; [exact Hn|]. split; [exact Hbefore|].
  split; [exact Hfull|].
  split; [exact Heq|]. intros i. apply mostProbableAt_selectionOk.
Qed.

(** C2 counterexample. One point whose distribution has the skip entry at
    1 and key 0 ('a') at 0.8: the source keeps the skip entry (key 0 is
    compared at 0.8 + 0.3) and writes no character, while the rule of the
    claim (skip entry penalised by any constant [delta >= 0]) picks key 0
    and would write 'a'. *)
Lemma getMostProbableString_skip_entry_not_penalised :
  let d : CharProbabilities := [(NOT_AN_INDEX, 1%Q); (0%Z, 4 # 5)] in
  let s := Demo.decoderState Demo.asd [d] in
  getMostProbableString s = ([], 1%Q) /\
  codePointOf s 0 = 97 /\
  forall delta, (0 <= delta)%Q -> snd (specMostProbableAt delta d) = 0.
Proof.
  intros d s. split; [vm_compute; reflexivity|]. split; [reflexivity|].
  intros delta Hdelta. unfold specMostProbableAt, d. simpl.
  destruct (Qltb (1 + delta) (inject_Z MAX_POINT_TO_KEY_LENGTH)) eqn:E1; simpl.
  - replace (Qltb (4 # 5) (1 + delta)) with true; [reflexivity|].
    symmetry. apply Qltb_iff. lra.
  - replace (Qltb (4 # 5) (inject_Z MAX_POINT_TO_KEY_LENGTH)) with true; [reflexivity|].
    symmetry. apply Qltb_iff. unfold MAX_POINT_TO_KEY_LENGTH. rewrite Qlt_alt. reflexivity.
Qed.

(** C9 (defect).  On a keyboard with two keys of the same code point 'a',
    one gesture point near both keys has both keys in its search-key set;
    getAllPossibleChars on an empty filter returns 'a' twice, since a key's
    code point is only compared with the first [filterSize] entries and
    not with the entries it appended itself. *)
Lemma getAllPossibleChars_duplicates :
  let s := initInputParams Demo.utils freshState (Demo.input Demo.twoA true 5 [(0, 0)]) in
  getAllPossibleChars s 0 [] = [97; 97].
Proof. vm_compute. reflexivity. Qed.

(** C6 (as corrected).  When the continuation check fails, initInputParams
    clears every buffer: the resulting state agrees with the state of one
    call with the same input on a fresh instance in every buffer and every
    value the queries read.  It differs from it in the continuation flag,
    which is false here (a fresh call's check can succeed), and in the average
    speed, which keeps its previous value unless the input is a gesture
    with sampled points. *)
Theorem initInputParams_after_failed_check (U : StateUtils) (s : ProximityInfoState)
    (B : InputParams) :
  checkAndReturnIsContinuationPossible s B = false ->
  observe (initInputParams U s B) = observe (initInputParams U freshState B) /\
  mIsContinuationPossible (initInputParams U s B) = false /\
  mAverageSpeed (initInputParams U s B) =
    (if Nat.ltb 0 (mSampledInputSize (initInputParams U freshState B)) && isGeometric B
     then mAverageSpeed (initInputParams U freshState B) else mAverageSpeed s).
Proof.
  intros Hcheck. unfold initInputParams. rewrite Hcheck.
  change (mInputIndice (mTouchPoints freshState)) with (@nil Z).
  rewrite andb_false_r. cbn [andb].
  destruct (match xCoordinates B, yCoordinates B with
            | Some _, Some _ => _ | _, _ => _ end) as [n tp1].
  destruct (Nat.ltb 0 n && isGeometric B) eqn:Hgeo;
    repeat match goal with
           | |- context [match ?e with pair _ _ => _ end] => destruct e
           end;
    repeat split; cbn [mAverageSpeed mSampledInputSize]; rewrite ?Hgeo; reflexivity.
Qed.

Lemma nth_insert_ne {A} (l : list A) (n j : nat) (x d : A) :
  j <> n -> nth j (<[n := x]> l) d = nth j l d.
Proof. intros Hne. rewrite !nth_lookup, list_lookup_insert_ne; auto. Qed.

Lemma nth_insert_eq {A} (l : list A) (n : nat) (x d : A) :
  (n < length l)%nat -> nth n (<[n := x]> l) d = x.
Proof. intros Hn. rewrite nth_lookup, list_lookup_insert_eq; auto. Qed.

Lemma distanceKeyLoop_spec (pi : ProximityInfo) (kc i : nat) (x y : Z) :
  forall fuel k dc nk, (k + fuel = kc)%nat -> (i * kc + kc <= length dc)%nat ->
  let r := distanceKeyLoop pi kc i x y k fuel dc nk in
  length (fst r) = length dc /\
  (forall j, (j < i * kc + k \/ i * kc + kc <= j)%nat -> nth j (fst r) 0%Q = nth j dc 0%Q) /\
  (forall k', (k <= k' < kc)%nat ->
     nth (i * kc + k') (fst r) 0%Q = getNormalizedSquaredDistanceFromCenterFloatG pi k' x y) /\
  (forall k', k' ∈ snd r <-> k' ∈ nk \/
     ((k <= k' < kc)%nat /\
      Qltb (getNormalizedSquaredDistanceFromCenterFloatG pi k' x y)
           NEAR_KEY_NORMALIZED_SQUARED_THRESHOLD = true)).
Proof.
  induction fuel as [|fuel IH]; intros k dc nk Hk Hlen r; subst r; simpl.
  - split; [reflexivity|]. split; [reflexivity|]. split; [intros; lia|].
    intros k'. split; [tauto|]. intros [H|[H _]]; [exact H|lia].
  - set (d := getNormalizedSquaredDistanceFromCenterFloatG pi k x y).
    set (dc1 := <[(i * kc + k)%nat := d]> dc).
    set (nk1 := if Qltb d NEAR_KEY_NORMALIZED_SQUARED_THRESHOLD then {[k]} ∪ nk else nk).
    assert (Hlen1 : length dc1 = length dc) by (unfold dc1; apply length_insert).
    destruct (IH (S k) dc1 nk1 ltac:(lia) ltac:(lia)) as (L & Un & C & N).
    split; [congruence|]. split; [|split].
    + intros j Hj. rewrite Un by lia. unfold dc1. apply nth_insert_ne. lia.
    + intros k' Hk'. destruct (Nat.eq_dec k' k) as [->|Hne].
      * rewrite Un by lia. unfold dc1. apply nth_insert_eq. lia.
      * apply C. lia.
    + intros k'. rewrite N. unfold nk1.
      destruct (Qltb d NEAR_KEY_NORMALIZED_SQUARED_THRESHOLD) eqn:Hq.
      * rewrite elem_of_union, elem_of_singleton.
        destruct (Nat.eq_dec k' k) as [->|Hne]; [|intuition lia].
        split; [intros _; right; split; [lia|exact Hq]|intros _; left; left; reflexivity].
      * destruct (Nat.eq_dec k' k) as [->|Hne]; [|intuition lia].
        unfold d in Hq. split; [intuition lia|].
        intros [H|[_ H]]; [left; exact H| congruence].
Qed.

Lemma rowsOk_mono (kc : nat) (dc : list Q) (nears : list KeySet) (m m' : nat) :
  rowsOk kc dc nears m -> (m' <= m)%nat -> rowsOk kc dc nears m'.
Proof. intros H Hm i k Hi Hk. apply H; lia. Qed.

Lemma distancePointLoop_spec (pi : ProximityInfo) (kc : nat) (tp : TouchPoints) :
  forall fuel i0 dc nears searches dc' nears' searches',
  ((i0 + fuel) * kc <= length dc)%nat -> (i0 + fuel <= length nears)%nat ->
  rowsOk kc dc nears i0 ->
  distancePointLoop pi kc tp i0 fuel dc nears searches = (dc', nears', searches') ->
  length dc' = length dc /\ length nears' = length nears /\ rowsOk kc dc' nears' (i0 + fuel).
Proof.
  induction fuel as [|fuel IH];
    intros i0 dc nears searches dc' nears' searches' Hdc Hn Hrows E; simpl in E.
  - injection E as <- <- <-. rewrite Nat.add_0_r. auto.
  - set (x := nth i0 (mSampledInputXs tp) 0) in E.
    set (y := nth i0 (mSampledInputYs tp) 0) in E.
    set (nears0 := <[i0 := ∅]> nears) in E.
    destruct (distanceKeyLoop pi kc i0 x y 0 kc dc (nears0 !!! i0)) as [dc1 nk] eqn:Hk.
    pose proof (distanceKeyLoop_spec pi kc i0 x y kc 0 dc (nears0 !!! i0)
                  ltac:(lia) ltac:(nia)) as Hspec.
    cbv zeta in Hspec. rewrite Hk in Hspec. simpl in Hspec.
    destruct Hspec as (L & Un & C & N).
    assert (Hn0 : length nears0 = length nears) by apply length_insert.
    assert (Hrows1 : rowsOk kc dc1 (<[i0 := nk]> nears0) (S i0)).
    { intros i k Hi Hkk. destruct (Nat.eq_dec i i0) as [->|Hne].
      - rewrite list_lookup_total_insert_eq by lia. rewrite N, C by lia.
        unfold nears0. rewrite list_lookup_total_insert_eq by lia.
        split; [intros [H|[_ H]]; [set_solver|exact H]|intros H; right; split; [lia|exact H]].
      - rewrite list_lookup_total_insert_ne by lia. unfold nears0.
        rewrite list_lookup_total_insert_ne by lia. rewrite Un by nia. apply Hrows; lia. }
    destruct (IH (S i0) dc1 (<[i0 := nk]> nears0) (<[i0 := ∅]> searches)
                dc' nears' searches' ltac:(lia) ltac:(rewrite length_insert; lia)
                Hrows1 E) as (L' & N' & R').
    rewrite length_insert in N'. split; [lia|]. split; [lia|].
    replace (i0 + S fuel)%nat with (S i0 + fuel)%nat by lia. exact R'.
Qed.

Lemma rowsOk_resize (kc : nat) (dc : list Q) (nears : list KeySet) (m n : nat) :
  rowsOk kc dc nears m -> (m <= n)%nat -> (m * kc <= length dc)%nat ->
  (m <= length nears)%nat ->
  rowsOk kc (resize (n * kc) 0%Q dc) (resize n ∅ nears) m.
Proof.
  intros H Hmn Hdc Hn i k Hi Hk.
  rewrite lookup_total_resize by lia.
  rewrite !nth_lookup, lookup_resize by nia. rewrite <- nth_lookup. apply H; lia.
Qed.

Lemma length_pop_back {A} (l : list A) : length (pop_back l) = pred (length l).
Proof. unfold pop_back. rewrite length_take. lia. Qed.

Lemma distance_update_ok (pi : ProximityInfo) (kc : nat) (tp : TouchPoints)
    (ls n : nat) (dc0 : list Q) (nk0 sk0 : list KeySet) (dc : list Q) (nk sk : list KeySet) :
  rowsOk kc dc0 nk0 ls -> (ls * kc <= length dc0)%nat -> (ls <= length nk0)%nat ->
  distancePointLoop pi kc tp ls (n - ls) (resize (n * kc) 0%Q dc0) (resize n ∅ nk0)
    (resize n ∅ sk0) = (dc, nk, sk) ->
  rowsOk kc dc nk n /\ length dc = (n * kc)%nat /\ length nk = n.
Proof.
  intros Hr Hd Hn E. destruct (Nat.le_gt_cases ls n) as [Hle|Hgt].
  - apply distancePointLoop_spec in E as (L & N & R);
      rewrite ?length_resize in *; try nia.
    + replace (ls + (n - ls))%nat with n in R by lia. auto.
    + apply rowsOk_resize; auto.
  - replace (n - ls)%nat with 0%nat in E by lia. simpl in E. injection E as <- <- _.
    rewrite !length_resize. split; [|auto].
    apply rowsOk_resize; [eapply rowsOk_mono; [exact Hr|lia]|lia|nia|lia].
Qed.

Section NearKeys.
Variable U : StateUtils.
(** Modelled from the spec: the contracts of the two helpers of
    ProximityInfoStateUtils that are not in the sources.  The alignment
    model (spec 4.4) produces the distributions and leaves the near-key
    sets as 4.2 derived them; the resampler (spec 4.1) returns the number
    of sampled points it leaves in the buffers. *)
Hypothesis align_keeps_near : forall ml w kc ls n tp sr dc nk cp,
  fst (updateAlignPointProbabilities U ml w kc ls n tp sr dc nk cp) = nk.
Hypothesis touch_size : forall w pi ml prox inp start tp,
  fst (updateTouchPoints U w pi ml prox inp start tp) =
  length (mSampledInputXs (snd (updateTouchPoints U w pi ml prox inp start tp))).

Lemma initInputParams_nearKeysInv (s : ProximityInfoState) (inp : InputParams) :
  nearKeysInv (getKeyCount (proximityInfo inp)) s ->
  nearKeysInv (getKeyCount (proximityInfo inp)) (initInputParams U s inp).
Proof.
  intros (Hr & Hd & Hn & Hs). unfold initInputParams.
  set (kc := getKeyCount (proximityInfo inp)) in *.
  cbv zeta.
  match goal with
  | |- context [match (if ?c then ?a else ?b) with pair _ _ => _ end] =>
      destruct (if c then a else b)
        as [[[[[[[[[pushStart ls] tp0] dc0] nk0] sk0] sr0] bs0] cp0] dirs0] eqn:Epre
  end.
  assert (Hpre : ls = length (mSampledInputXs tp0) /\ rowsOk kc dc0 nk0 ls /\
                 (ls * kc <= length dc0)%nat /\ (ls <= length nk0)%nat).
  { destruct (_ && _) in Epre; injection Epre as <- <- <- <- <- <- <- <- <- <-.
    - split; [reflexivity|]. rewrite !length_pop_back. split; [eapply rowsOk_mono; [exact Hr|lia]|]. split; nia.
    - split; [reflexivity|]. split; [intros i k Hi; simpl in Hi; lia|]. simpl; lia. }
  clear Epre. destruct Hpre as (Hls & Hr0 & Hd0 & Hn0).
  match goal with
  | |- context [match ?e with pair _ _ => _ end] => destruct e as [n tp1] eqn:Etp
  end.
  assert (Hntp : n = length (mSampledInputXs tp1) \/ (n = 0%nat /\ tp1 = tp0)).
  { destruct (xCoordinates inp), (yCoordinates inp);
      try (injection Etp as <- <-; right; split; reflexivity).
    left. pose proof (f_equal fst Etp) as E1. pose proof (f_equal snd Etp) as E2.
    simpl in E1, E2. rewrite <- E1, <- E2. apply touch_size. }
  clear Etp.
  destruct (Nat.ltb 0 n) eqn:Hpos; destruct (isGeometric inp) eqn:Hgeo; cbn [andb].
  1-2: apply Nat.ltb_lt in Hpos;
    destruct Hntp as [Hntp|[-> _]]; [|lia];
    match goal with
    | |- context [distancePointLoop ?a ?b ?c ?d ?e ?f ?g ?h] =>
        destruct (distancePointLoop a b c d e f g h) as [[dc nk] sk] eqn:Edp
    end.
  1: match goal with
     | |- context [refreshSpeedRates ?a ?b ?c ?d ?e ?f ?g] =>
         destruct (refreshSpeedRates a b c d e f g) as [[avg sr1] dirs1]
     end;
     match goal with
     | |- context [updateAlignPointProbabilities U ?a ?b ?c ?d ?e ?f ?g ?h ?i ?j] =>
         pose proof (align_keeps_near a b c d e f g h i j) as Hal;
         destruct (updateAlignPointProbabilities U a b c d e f g h i j) as [nk' cp'];
         simpl in Hal; subst nk'
     end.
  all: repeat match goal with
         | |- context [match ?e with pair _ _ => _ end] => destruct e
         end.
  all: unfold nearKeysInv; cbn [mTouchPoints mDistanceCache_G mNearKeysVector mSampledInputSize].
  1-2: rewrite <- Hntp; apply distance_update_ok in Edp as (R & L & N); auto;
    split; [exact R|]; split; lia.
  all: destruct Hntp as [Hm|[_ ->]];
    [apply Nat.ltb_ge in Hpos; rewrite <- Hm; replace n with 0%nat by lia;
     split; [intros i k Hi; lia|simpl; lia]
    |apply Nat.ltb_ge in Hpos; rewrite <- Hls;
     split; [exact Hr0|]; split; [exact Hd0|]; split; [exact Hn0|lia]].
Qed.
Lemma runSession_nearKeysInv (kc : nat) (inputs : list InputParams) :
  forall s, nearKeysInv kc s ->
  Forall (fun inp => getKeyCount (proximityInfo inp) = kc) inputs ->
  nearKeysInv kc (runSession U s inputs).
Proof.
  unfold runSession. induction inputs as [|inp inputs IH]; intros s Hs Hall; simpl; [exact Hs|].
  inversion_clear Hall as [|? ? Hkc Hrest]. apply IH; [|exact Hrest].
  subst kc. apply initInputParams_nearKeysInv. exact Hs.
Qed.

(** C7. After any sequence of calls of initInputParams on a fresh instance
    with one keyboard, for every sampled point [i] and every key [k], [k]
    is in the near-key set of [i] exactly when the cached normalised
    squared distance from [i] to [k] is below 4. *)
Theorem near_keys_threshold (pi : ProximityInfo) (inputs : list InputParams) (i k : nat) :
  Forall (fun inp => proximityInfo inp = pi) inputs ->
  (i < mSampledInputSize (runSession U freshState inputs))%nat ->
  (k < getKeyCount pi)%nat ->
  (k ∈ mNearKeysVector (runSession U freshState inputs) !!! i <->
   (nth (i * getKeyCount pi + k) (mDistanceCache_G (runSession U freshState inputs)) 0%Q
      < 4)%Q).
Proof.
  intros Hpi Hi Hk.
  assert (Hinv : nearKeysInv (getKeyCount pi) (runSession U freshState inputs)).
  { apply runSession_nearKeysInv.
    - split; [intros ? ? Hi'; simpl in Hi'; lia|]. simpl. lia.
    - eapply Forall_impl; [exact Hpi|]. intros inp ->. reflexivity. }
  destruct Hinv as (Hr & _ & _ & Hs).
  rewrite (Hr i k) by lia. rewrite Qltb_iff. reflexivity.
Qed.

End NearKeys.

Lemma near_keys_threshold_witness :
  Forall (fun inp => proximityInfo inp = Demo.asd) Demo.swipe /\
  (0 < mSampledInputSize (runSession Demo.utils freshState Demo.swipe))%nat /\
  (1 < getKeyCount Demo.asd)%nat /\
  (1%nat ∈ mNearKeysVector (runSession Demo.utils freshState Demo.swipe) !!! 0%nat <->
   (nth (0 * getKeyCount Demo.asd + 1)%nat
      (mDistanceCache_G (runSession Demo.utils freshState Demo.swipe)) 0%Q < 4)%Q).
Proof.
  split; [repeat constructor|].
  split; [apply Nat.ltb_lt; vm_compute; reflexivity|].
  split; [apply Nat.ltb_lt; vm_compute; reflexivity|].
  apply (near_keys_threshold Demo.utils (fun _ _ _ _ _ _ _ _ _ _ => eq_refl)
           (fun _ _ _ _ _ _ _ => eq_refl) Demo.asd Demo.swipe 0 1).
  - repeat constructor.
  - apply Nat.ltb_lt; vm_compute; reflexivity.
  - apply Nat.ltb_lt; vm_compute; reflexivity.
Defined.

(** C3 counterexample.  On keyboard [asd] a tap at (0,0) has the proximity
    list [A, a, s, DELIM, d] (the typed letter is the shifted 'A'): the
    list has the shape of the claim with [primary = 'A'] and [a = 'a'],
    yet target 'a' is classified NEAR_PROXIMITY_CHAR by the base-lower-case
    step, which writes no proximity index, instead of at position 1. *)
Lemma getMatchedProximityId_shifted_primary :
  map (proximityCodePointAt (Demo.tapA) 0) (seq 0 6) =
    [65; 97; 115; 2; 100; 0] /\
  getMatchedProximityId Demo.utils (Demo.tapA) 0 97 true =
    (NEAR_PROXIMITY_CHAR, None).
Proof. split; vm_compute; reflexivity. Qed.

(** C4 counterexample.  With maxPointToKeyLength 5, the code point 'x',
    which has no key on [asd] and is not skippable, gets the length
    MAX_POINT_TO_KEY_LENGTH, above the caller's bound. *)
Lemma getPointToKeyLength_exceeds_max :
  getPointToKeyLength Demo.utils (Demo.tapA) 0 120 1 =
    inject_Z MAX_POINT_TO_KEY_LENGTH /\
  mMaxPointToKeyLength (Demo.tapA) = 5%Q /\
  ~ (getPointToKeyLength Demo.utils (Demo.tapA) 0 120 1
       <= mMaxPointToKeyLength (Demo.tapA))%Q.
Proof.
  assert (E1 : getPointToKeyLength Demo.utils (Demo.tapA) 0 120 1 =
               inject_Z MAX_POINT_TO_KEY_LENGTH) by (vm_compute; reflexivity).
  assert (E2 : mMaxPointToKeyLength (Demo.tapA) = 5%Q)
    by (vm_compute; reflexivity).
  split; [exact E1|]. split; [exact E2|].
  rewrite E1, E2. rewrite Qle_alt. intros H. apply H. reflexivity.
Qed.

(** C6 counterexample.  Tap A at (0,0), then tap B at (7,7) on [asd]: the
    check fails, and the continuation flag of the round trip is false while
    the flag of one call with B on a fresh instance is true, so the two
    states differ. *)
Lemma initInputParams_round_trip_flag :
  checkAndReturnIsContinuationPossible (Demo.tapA)
    (Demo.tapB) = false /\
  mIsContinuationPossible
    (initInputParams Demo.utils (Demo.tapA)
       (Demo.tapB)) = false /\
  mIsContinuationPossible (Demo.tapBfresh) = true /\
  initInputParams Demo.utils (Demo.tapA)
    (Demo.tapB) <> Demo.tapBfresh.
Proof.
  assert (E1 : mIsContinuationPossible
    (initInputParams Demo.utils (Demo.tapA)
       (Demo.tapB)) = false) by (vm_compute; reflexivity).
  assert (E2 : mIsContinuationPossible (Demo.tapBfresh) = true)
    by (vm_compute; reflexivity).
  split; [vm_compute; reflexivity|]. split; [exact E1|]. split; [exact E2|].
  intros Heq. rewrite Heq, E2 in E1. discriminate.
Qed.

Lemma checkAndReturnIsContinuationPossible_tap_witness :
  isGeometric (Demo.tapAS) = false /\
  (checkAndReturnIsContinuationPossible (Demo.tapA)
     (Demo.tapAS) = true <->
   Z.of_nat (mSampledInputSize (Demo.tapA)) <=
     inputSize (Demo.tapAS) /\
   forall i, (i < Nat.min (mSampledInputSize (Demo.tapA))
                 MAX_WORD_LENGTH)%nat ->
     nth i (default [] (xCoordinates (Demo.tapAS))) 0 =
       nth i (mSampledInputXs (mTouchPoints (Demo.tapA))) 0 /\
     nth i (default [] (yCoordinates (Demo.tapAS))) 0 =
       nth i (mSampledInputYs (mTouchPoints (Demo.tapA))) 0).
Proof.
  split; [reflexivity|].
  apply checkAndReturnIsContinuationPossible_tap. reflexivity.
Defined.

Lemma out_of_range_queries_neutral_witness :
  ((5 < 0 \/ Z.of_nat (mSampledInputSize (Demo.gestureA)) <= 5) ->
   getDuration (Demo.gestureA) 5 = 0) /\
  ((5 < 0 \/ Z.of_nat (mSampledInputSize (Demo.gestureA)) <= 5
    \/ 0 < 0 \/ Z.of_nat (mSampledInputSize (Demo.gestureA)) <= 0) ->
   getLineToKeyDistance Demo.utils (Demo.gestureA) 5 0 0 false = 0%Q).
Proof. apply out_of_range_queries_neutral. Defined.

Lemma getDuration_last_point_witness :
  getDuration (Demo.gestureAS)
    (Z.of_nat (mSampledInputSize (Demo.gestureAS)) - 1) = 0 /\
  (getDuration (Demo.gestureAS) 0 <> 0 ->
   0 <= 0 < Z.of_nat (mSampledInputSize (Demo.gestureAS)) - 1) /\
  (0 <= 0 < Z.of_nat (mSampledInputSize (Demo.gestureAS)) - 1 ->
   getDuration (Demo.gestureAS) 0 =
     atZ (mTimes (mTouchPoints (Demo.gestureAS))) (0 + 1) -
     atZ (mTimes (mTouchPoints (Demo.gestureAS))) 0).
Proof. apply getDuration_last_point. Defined.

Lemma getPointToKeyLength_cases_witness :
  mProximityInfo (Demo.tapA) = Some Demo.asd /\
  (getKeyIndexOf Demo.asd 115 <> NOT_AN_INDEX ->
   getPointToKeyLength Demo.utils (Demo.tapA) 0 115 1 =
     fmin (nth (Z.to_nat (0 * Z.of_nat (getKeyCount Demo.asd) + getKeyIndexOf Demo.asd 115))
              (mDistanceCache_G (Demo.tapA)) 0%Q * 1)
          (mMaxPointToKeyLength (Demo.tapA)) /\
   (getPointToKeyLength Demo.utils (Demo.tapA) 0 115 1
      <= mMaxPointToKeyLength (Demo.tapA))%Q) /\
  (getKeyIndexOf Demo.asd 115 = NOT_AN_INDEX -> isSkippableCodePoint Demo.utils 115 = true ->
   getPointToKeyLength Demo.utils (Demo.tapA) 0 115 1 = 0%Q) /\
  (getKeyIndexOf Demo.asd 115 = NOT_AN_INDEX -> isSkippableCodePoint Demo.utils 115 = false ->
   getPointToKeyLength Demo.utils (Demo.tapA) 0 115 1 =
     inject_Z MAX_POINT_TO_KEY_LENGTH).
Proof.
  assert (H : mProximityInfo (Demo.tapA) = Some Demo.asd)
    by reflexivity.
  split; [exact H|]. apply getPointToKeyLength_cases. exact H.
Defined.

Lemma getMatchedProximityId_priority_witness :
  getMatchedProximityId Demo.utils (Demo.tapF) 0 97 true =
    (EQUIVALENT_CHAR, None) /\
  getMatchedProximityId Demo.utils (Demo.tapF) 0 115 true =
    (NEAR_PROXIMITY_CHAR, Some 1%nat) /\
  getMatchedProximityId Demo.utils (Demo.tapF) 0 102 true =
    (ADDITIONAL_PROXIMITY_CHAR, Some 4%nat) /\
  (~ In 120 [97; 115; 100; 102] -> ~ In (toBaseLowerCase Demo.utils 120) [97; 115; 100; 102] ->
   getMatchedProximityId Demo.utils (Demo.tapF) 0 120 true =
     (UNRELATED_CHAR, None)).
Proof.
  apply getMatchedProximityId_priority with (b := 100);
    try (vm_compute; reflexivity).
  - vm_compute. discriminate.
  - repeat constructor; vm_compute; reflexivity.
  - repeat constructor; simpl; intuition discriminate.
Defined.

Lemma initInputParams_after_failed_check_witness :
  checkAndReturnIsContinuationPossible (Demo.tapA)
    (Demo.tapB) = false /\
  observe (initInputParams Demo.utils (Demo.tapA)
             (Demo.tapB)) =
    observe (initInputParams Demo.utils freshState (Demo.tapB)) /\
  mIsContinuationPossible (initInputParams Demo.utils (Demo.tapA)
                             (Demo.tapB)) = false /\
  mAverageSpeed (initInputParams Demo.utils (Demo.tapA)
                   (Demo.tapB)) =
    (if Nat.ltb 0 (mSampledInputSize (initInputParams Demo.utils freshState
                                        (Demo.tapB)))
        && isGeometric (Demo.tapB)
     then mAverageSpeed (initInputParams Demo.utils freshState
                           (Demo.tapB))
     else mAverageSpeed (Demo.tapA)).
Proof.
  assert (H : checkAndReturnIsContinuationPossible (Demo.tapA)
                (Demo.tapB) = false) by (vm_compute; reflexivity).
  split; [exact H|]. apply initInputParams_after_failed_check. exact H.
Defined.

(* ------------------------------------------------------------------ *)
(** * Further properties of the code *)

Lemma getDuration_sum_from (s : ProximityInfoState) :
  forall m a, (a + m < mSampledInputSize s)%nat ->
  fold_right Z.add 0 (map (fun i => getDuration s (Z.of_nat i)) (seq a m)) =
  atZ (mTimes (mTouchPoints s)) (Z.of_nat (a + m)) - atZ (mTimes (mTouchPoints s)) (Z.of_nat a).
Proof.
  induction m as [|m IH]; intros a Ha; simpl.
  - rewrite Nat.add_0_r. lia.
  - rewrite IH by lia. unfold getDuration.
    destruct ((0 <=? Z.of_nat a) && (Z.of_nat a <? Z.of_nat (mSampledInputSize s) - 1)) eqn:E.
    + replace (Z.of_nat a + 1) with (Z.of_nat (S a)) by lia.
      replace (S a + m)%nat with (a + S m)%nat by lia. lia.
    + exfalso. apply andb_false_iff in E as [E|E]; [apply Z.leb_gt in E|apply Z.ltb_ge in E]; lia.
Qed.

(** X1. The durations getDuration of the first [m] sampled points add up to
    the time of point [m] minus the time of point 0. *)
Theorem getDuration_telescopes (s : ProximityInfoState) (m : nat) :
  (m < mSampledInputSize s)%nat ->
  fold_right Z.add 0 (map (fun i => getDuration s (Z.of_nat i)) (seq 0 m)) =
  atZ (mTimes (mTouchPoints s)) (Z.of_nat m) - atZ (mTimes (mTouchPoints s)) 0.
Proof. intros Hm. apply (getDuration_sum_from s m 0). lia. Qed.

(** X2. getProbability returns MAX_POINT_TO_KEY_LENGTH for a key absent
    from the distribution of the point, and the stored value for a key
    present in it (keys being unique, as in the source's map). *)
Theorem getProbability_lookup (s : ProximityInfoState) (index keyIndex : Z) :
  0 <= index < Z.of_nat (mSampledInputSize s) ->
  let d := nth (Z.to_nat index) (mCharProbabilities s) [] in
  (~ In keyIndex (map fst d) -> getProbability s index keyIndex = inject_Z MAX_POINT_TO_KEY_LENGTH) /\
  (forall value, List.NoDup (map fst d) -> In (keyIndex, value) d ->
   getProbability s index keyIndex = value).
Proof.
  intros _ d. unfold getProbability. fold d. split.
  - intros Hnot. destruct (find (fun e => fst e =? keyIndex) d) as [[k v]|] eqn:Hf; [|reflexivity].
    exfalso. apply find_some in Hf as [Hin Hk]. apply Z.eqb_eq in Hk. simpl in Hk. subst k.
    apply Hnot. apply in_map_iff. exists (keyIndex, v). auto.
  - intros value Hnd Hin. destruct (find (fun e => fst e =? keyIndex) d) as [[k v]|] eqn:Hf.
    + apply find_some in Hf as [Hin' Hk]. apply Z.eqb_eq in Hk. simpl in Hk. subst k.
      revert Hnd Hin Hin'. clear. induction d as [|[k' v'] d IHd]; intros Hnd Hin Hin'; [contradiction|].
      simpl in Hnd. apply NoDup_cons_iff in Hnd as [Hnot Hnd].
      destruct Hin as [Heq|Hin]; destruct Hin' as [Heq'|Hin'].
      * congruence.
      * injection Heq as -> ->. exfalso. apply Hnot. apply in_map_iff. exists (keyIndex, v). auto.
      * injection Heq' as -> ->. exfalso. apply Hnot. apply in_map_iff. exists (keyIndex, value). auto.
      * apply IHd; auto.
    + exfalso. eapply find_none in Hf; [|exact Hin]. simpl in Hf. rewrite Z.eqb_refl in Hf. discriminate.
Qed.

(** X3. The best adjusted value the search of getMostProbableString finds
    at a point is at most the adjusted value of any key's getProbability
    there. *)
Theorem mostProbableAt_le_getProbability (s : ProximityInfoState) (index keyIndex : Z) :
  0 <= index < Z.of_nat (mSampledInputSize s) ->
  (fst (mostProbableAt (nth (Z.to_nat index) (mCharProbabilities s) []))
   <= adjustedLogProbability keyIndex (getProbability s index keyIndex))%Q.
Proof.
  intros _. set (d := nth (Z.to_nat index) (mCharProbabilities s) []).
  pose proof (mostProbableAt_selectionOk d) as Hsel.
  destruct (mostProbableAt d) as [m c]. destruct Hsel as (Hmax & Hall & _). simpl.
  unfold getProbability. fold d.
  destruct (find (fun e => fst e =? keyIndex) d) as [[k v]|] eqn:Hf.
  - apply find_some in Hf as [Hin Hk]. apply Z.eqb_eq in Hk. simpl in Hk. subst k. now apply Hall.
  - unfold adjustedLogProbability. destruct (negb (keyIndex =? NOT_AN_INDEX)); [|exact Hmax].
    apply Qle_trans with (1 := Hmax). unfold DEMOTION_LOG_PROBABILITY.
    rewrite <- (Qplus_0_r (inject_Z _)) at 1. apply Qplus_le_compat; [apply Qle_refl|].
    unfold Qle; simpl; lia.
Qed.

Section PossibleChars.
Variables (S : KeySet) (cp : nat -> Z) (filter : list Z).

Lemma possibleStep_fold (l : list nat) (acc : list Z) :
  exists added, fold_left (possibleStep S cp filter) l acc = acc ++ added /\
  (forall x, In x added -> ~ In x filter /\ exists j, In j l /\ j ∈ S /\ x = cp j) /\
  (forall j, In j l -> j ∈ S -> In (cp j) filter \/ In (cp j) added).
Proof.
  revert acc. induction l as [|j l IH]; intros acc; simpl.
  - exists []. rewrite app_nil_r. split; [reflexivity|]. split; [intros x []|intros j []].
  - destruct (IH (possibleStep S cp filter acc j)) as (added & Heq & Hs & Hc). rewrite Heq.
    unfold possibleStep. destruct (bool_decide (j ∈ S)) eqn:Hj.
    + apply bool_decide_eq_true in Hj.
      destruct (existsb (fun f => f =? cp j) filter) eqn:Hex; simpl.
      * exists added. split; [reflexivity|]. split.
        -- intros x Hx. destruct (Hs x Hx) as (Hn & j' & ? & ? & ?). eauto 7.
        -- intros j' [<-|Hin] Hj'; [|now apply Hc].
           left. apply existsb_exists in Hex as (f & Hf & Hfe). apply Z.eqb_eq in Hfe. congruence.
      * exists (cp j :: added). rewrite <- app_assoc. split; [reflexivity|]. split.
        -- intros x [<-|Hx].
           ++ split; [|eauto]. intros Hin. apply Bool.not_true_iff_false in Hex. apply Hex.
              apply existsb_exists. exists (cp j). split; [exact Hin|apply Z.eqb_refl].
           ++ destruct (Hs x Hx) as (Hn & j' & ? & ? & ?). eauto 7.
        -- intros j' [<-|Hin] Hj'; [right; left; reflexivity|].
           destruct (Hc j' Hin Hj'); [left|right; right]; auto.
    + apply bool_decide_eq_false in Hj.
      exists added. split; [reflexivity|]. split.
      * intros x Hx. destruct (Hs x Hx) as (Hn & j' & ? & ? & ?). eauto 7.
      * intros j' [<-|Hin] Hj'; [contradiction|now apply Hc].
Qed.
End PossibleChars.

Lemma getAllPossibleChars_fold (s : ProximityInfoState) (index : nat) (filter : list Z) :
  (index < length (mSampledInputXs (mTouchPoints s)))%nat ->
  getAllPossibleChars s index filter =
  fold_left (possibleStep (mSearchKeysVector s !!! index) (fun j => codePointOf s (Z.of_nat j)) filter)
    (seq 0 (keyCountOf s)) filter.
Proof.
  intros Hi. unfold getAllPossibleChars.
  destruct (Nat.leb_spec (length (mSampledInputXs (mTouchPoints s))) index); [lia|].
  reflexivity.
Qed.

Lemma getAllPossibleChars_added (s : ProximityInfoState) (index : nat) (filter : list Z) :
  exists added, getAllPossibleChars s index filter = filter ++ added /\
    forall x, In x added -> ~ In x filter /\
      exists j, (j < keyCountOf s)%nat /\ j ∈ mSearchKeysVector s !!! index /\
                x = codePointOf s (Z.of_nat j).
Proof.
  destruct (Nat.lt_ge_cases index (length (mSampledInputXs (mTouchPoints s)))) as [Hi|Hi].
  - rewrite getAllPossibleChars_fold by exact Hi.
    destruct (possibleStep_fold (mSearchKeysVector s !!! index)
                (fun j => codePointOf s (Z.of_nat j)) filter (seq 0 (keyCountOf s)) filter)
      as (added & Heq & Hs & _).
    exists added. split; [exact Heq|]. intros x Hx.
    destruct (Hs x Hx) as (Hn & j & Hj & HS & ->). apply in_seq in Hj.
    split; [exact Hn|]. exists j. split; [lia|auto].
  - exists []. rewrite app_nil_r. split; [|intros x []].
    unfold getAllPossibleChars.
    destruct (Nat.leb_spec (length (mSampledInputXs (mTouchPoints s))) index); [reflexivity|lia].
Qed.

(** X5. getAllPossibleChars returns the filter unchanged for an index
    past the sampled points; otherwise it returns the filter followed by
    new code points only, each absent from the filter and the code point
    of a key in the search-key set of the point. *)
Theorem getAllPossibleChars_extends (s : ProximityInfoState) (index : nat) (filter : list Z) :
  ((length (mSampledInputXs (mTouchPoints s)) <= index)%nat ->
   getAllPossibleChars s index filter = filter) /\
  exists added, getAllPossibleChars s index filter = filter ++ added /\
    forall x, In x added -> ~ In x filter /\
      exists j, (j < keyCountOf s)%nat /\ j ∈ mSearchKeysVector s !!! index /\
                x = codePointOf s (Z.of_nat j).
Proof.
  split.
  - intros Hi. unfold getAllPossibleChars.
    destruct (Nat.leb_spec (length (mSampledInputXs (mTouchPoints s))) index); [reflexivity|lia].
  - apply getAllPossibleChars_added.
Qed.

(** X6. If a key is in the search-key set of a sampled point
    (isKeyInSerchKeysAfterIndex), its code point is in the result of
    getAllPossibleChars at that point, whatever the filter. *)
Theorem getAllPossibleChars_complete (s : ProximityInfoState) (index keyId : Z) (filter : list Z) :
  0 <= index < Z.of_nat (length (mSampledInputXs (mTouchPoints s))) ->
  0 <= keyId < Z.of_nat (keyCountOf s) ->
  isKeyInSerchKeysAfterIndex s index keyId = true ->
  In (codePointOf s keyId) (getAllPossibleChars s (Z.to_nat index) filter).
Proof.
  intros Hi Hk Hin. unfold isKeyInSerchKeysAfterIndex in Hin. apply bool_decide_eq_true in Hin.
  rewrite getAllPossibleChars_fold by lia.
  destruct (possibleStep_fold (mSearchKeysVector s !!! Z.to_nat index)
              (fun j => codePointOf s (Z.of_nat j)) filter (seq 0 (keyCountOf s)) filter)
    as (added & Heq & _ & Hc).
  rewrite Heq. apply in_or_app.
  destruct (Hc (Z.to_nat keyId)) as [H|H]; [apply in_seq; lia|exact Hin| |];
    rewrite Z2Nat.id in H by lia; auto.
Qed.

Lemma scanProximity_matched (cps : nat -> Z) (c b : Z) :
  forall fuel j m, scanProximity cps c b j fuel = Matched m ->
  (j <= m < j + fuel)%nat /\ (cps m = b \/ cps m = c) /\
  forall j', (j <= j' <= m)%nat -> ADDITIONAL_PROXIMITY_CHAR_DELIMITER_CODE < cps j'.
Proof.
  induction fuel as [|fuel IH]; intros j m E; simpl in E; [discriminate|].
  destruct (Z.ltb_spec ADDITIONAL_PROXIMITY_CHAR_DELIMITER_CODE (cps j)) as [Hd|Hd]; [|discriminate].
  destruct ((cps j =? b) || (cps j =? c)) eqn:Hm.
  - injection E as <-. apply orb_true_iff in Hm as [Hm|Hm]; apply Z.eqb_eq in Hm.
    all: split; [lia|]; split; [auto|intros j' Hj'; replace j' with j by lia; exact Hd].
  - destruct (IH (S j) m E) as (Hr & Hc & Hall). split; [lia|]. split; [exact Hc|].
    intros j' Hj'. destruct (Nat.eq_dec j' j) as [->|Hne]; [exact Hd|apply Hall; lia].
Qed.

Lemma scanProximity_stopped (cps : nat -> Z) (c b : Z) :
  forall fuel j m, scanProximity cps c b j fuel = Stopped m ->
  (j <= m <= j + fuel)%nat /\
  (forall j', (j <= j' < m)%nat ->
     ADDITIONAL_PROXIMITY_CHAR_DELIMITER_CODE < cps j' /\ cps j' <> b /\ cps j' <> c) /\
  (m = (j + fuel)%nat \/ cps m <= ADDITIONAL_PROXIMITY_CHAR_DELIMITER_CODE).
Proof.
  induction fuel as [|fuel IH]; intros j m E; simpl in E.
  - injection E as <-. split; [lia|]. split; [intros; lia|left; lia].
  - destruct (Z.ltb_spec ADDITIONAL_PROXIMITY_CHAR_DELIMITER_CODE (cps j)) as [Hd|Hd].
    + destruct ((cps j =? b) || (cps j =? c)) eqn:Hm; [discriminate|].
      apply orb_false_iff in Hm as [Hb Hc]. apply Z.eqb_neq in Hb, Hc.
      destruct (IH (S j) m E) as (Hr & Hall & Hend). split; [lia|]. split.
      * intros j' Hj'. destruct (Nat.eq_dec j' j) as [->|Hne]; [auto|apply Hall; lia].
      * destruct Hend as [Hend|Hend]; [left; lia|right; exact Hend].
    + injection E as <-. split; [lia|]. split; [intros; lia|right; exact Hd].
Qed.

Lemma scanProximity_finds (cps : nat -> Z) (c b : Z) :
  forall fuel j m, (j <= m < j + fuel)%nat -> (cps m = b \/ cps m = c) ->
  (forall j', (j <= j' <= m)%nat -> ADDITIONAL_PROXIMITY_CHAR_DELIMITER_CODE < cps j') ->
  exists m', (m' <= m)%nat /\ scanProximity cps c b j fuel = Matched m'.
Proof.
  induction fuel as [|fuel IH]; intros j m Hm Hc Hall; [lia|]. simpl.
  rewrite (proj2 (Z.ltb_lt _ _)) by (apply Hall; lia).
  destruct ((cps j =? b) || (cps j =? c)) eqn:Hmj.
  - exists j. split; [lia|reflexivity].
  - destruct (Nat.eq_dec j m) as [->|Hne].
    + exfalso. apply orb_false_iff in Hmj as [H1 H2]. apply Z.eqb_neq in H1, H2. tauto.
    + apply IH; [lia|exact Hc|]. intros j' Hj'. apply Hall; lia.
Qed.

(** X8. When getMatchedProximityId reports an index [j], the check was
    requested, [j] is a non-first column, the code point there is [c] or
    its base lower case, and the type is NEAR when no delimiter comes
    before [j], ADDITIONAL when a delimiter at [d < j] comes first (no
    match before it). *)
Theorem getMatchedProximityId_reported_index (U : StateUtils) (s : ProximityInfoState)
    (index c : Z) (checkProximityChars : bool) (t : ProximityType) (j : nat) :
  getMatchedProximityId U s index c checkProximityChars = (t, Some j) ->
  let cps := proximityCodePointAt s index in
  checkProximityChars = true /\ (1 <= j < MAX_PROXIMITY_CHARS_SIZE)%nat /\
  (cps j = c \/ cps j = toBaseLowerCase U c) /\
  ((t = NEAR_PROXIMITY_CHAR /\
    forall j', (1 <= j' <= j)%nat -> ADDITIONAL_PROXIMITY_CHAR_DELIMITER_CODE < cps j') \/
   (t = ADDITIONAL_PROXIMITY_CHAR /\
    exists d, (1 <= d < j)%nat /\ cps d = ADDITIONAL_PROXIMITY_CHAR_DELIMITER_CODE /\
      (forall j', (1 <= j' < d)%nat -> ADDITIONAL_PROXIMITY_CHAR_DELIMITER_CODE < cps j' /\
                  cps j' <> c /\ cps j' <> toBaseLowerCase U c) /\
      (forall j', (d < j' <= j)%nat -> ADDITIONAL_PROXIMITY_CHAR_DELIMITER_CODE < cps j'))).
Proof.
  intros E cps. unfold getMatchedProximityId in E. fold cps in E.
  destruct ((cps 0%nat =? toBaseLowerCase U c) || (cps 0%nat =? c)); [discriminate|].
  destruct checkProximityChars; [|discriminate]. split; [reflexivity|].
  destruct (toBaseLowerCase U (cps 0%nat) =? toBaseLowerCase U c); [discriminate|].
  destruct (scanProximity cps c (toBaseLowerCase U c) 1 (MAX_PROXIMITY_CHARS_SIZE - 1))
    as [m|m] eqn:E1.
  - injection E as <- <-. apply scanProximity_matched in E1 as (Hr & Hc & Hall).
    unfold MAX_PROXIMITY_CHARS_SIZE in *. split; [lia|]. split; [tauto|]. left. auto.
  - destruct (Nat.ltb m MAX_PROXIMITY_CHARS_SIZE &&
              (cps m =? ADDITIONAL_PROXIMITY_CHAR_DELIMITER_CODE)) eqn:Hd; [|discriminate].
    apply andb_true_iff in Hd as [Hm Hd]. apply Nat.ltb_lt in Hm. apply Z.eqb_eq in Hd.
    destruct (scanProximity cps c (toBaseLowerCase U c) (S m) (MAX_PROXIMITY_CHARS_SIZE - S m))
      as [m'|m'] eqn:E2; [|discriminate].
    injection E as <- <-. apply scanProximity_stopped in E1 as (Hr1 & Hall1 & _).
    apply scanProximity_matched in E2 as (Hr2 & Hc2 & Hall2).
    unfold MAX_PROXIMITY_CHARS_SIZE in *. split; [lia|]. split; [tauto|]. right.
    split; [reflexivity|]. exists m. split; [lia|]. split; [exact Hd|]. split.
    + intros j' Hj'. destruct (Hall1 j' ltac:(lia)) as (? & ? & ?). auto.
    + intros j' Hj'. apply Hall2. lia.
Qed.

(** X9. If the first column does not match and a later column [j] matches
    with no delimiter up to it, getMatchedProximityId reports a NEAR match
    at some column in [1, j]. *)
Theorem getMatchedProximityId_finds_near (U : StateUtils) (s : ProximityInfoState)
    (index c : Z) (j : nat) :
  let cps := proximityCodePointAt s index in
  cps 0%nat <> c -> cps 0%nat <> toBaseLowerCase U c ->
  toBaseLowerCase U (cps 0%nat) <> toBaseLowerCase U c ->
  (1 <= j < MAX_PROXIMITY_CHARS_SIZE)%nat ->
  (cps j = c \/ cps j = toBaseLowerCase U c) ->
  (forall j', (1 <= j' <= j)%nat -> ADDITIONAL_PROXIMITY_CHAR_DELIMITER_CODE < cps j') ->
  exists m, (1 <= m <= j)%nat /\
    getMatchedProximityId U s index c true = (NEAR_PROXIMITY_CHAR, Some m).
Proof.
  intros cps H0 H0b H0l Hj Hc Hall. unfold getMatchedProximityId. fold cps.
  rewrite (proj2 (Z.eqb_neq _ _) H0), (proj2 (Z.eqb_neq _ _) H0b),
          (proj2 (Z.eqb_neq _ _) H0l). simpl orb. cbn [negb].
  destruct (scanProximity_finds cps c (toBaseLowerCase U c) (MAX_PROXIMITY_CHARS_SIZE - 1) 1 j)
    as (m & Hm & E); [unfold MAX_PROXIMITY_CHARS_SIZE in *; lia|tauto|exact Hall|].
  rewrite E. exists m. split; [|reflexivity].
  apply scanProximity_matched in E. lia.
Qed.

Lemma Qsquare_nonneg (x : Q) : (0 <= x * x)%Q.
Proof. destruct x as [a b]. unfold Qle, Qmult. simpl. nia. Qed.

(** X10. calculateNormalizedSquaredDistance is NOT_A_DISTANCE_FLOAT for a
    missing key, a key without sweet spot or a point without coordinate,
    and non-negative otherwise (for a non-zero radius). *)
Theorem calculateNormalizedSquaredDistance_sign (pi : ProximityInfo) (tp : TouchPoints)
    (keyIndex : Z) (inputIndex : nat) :
  ((keyIndex = NOT_AN_INDEX \/ hasSweetSpotData pi keyIndex = false \/
    nth inputIndex (mSampledInputXs tp) 0 = NOT_A_COORDINATE) ->
   calculateNormalizedSquaredDistance pi tp keyIndex inputIndex = NOT_A_DISTANCE_FLOAT) /\
  (keyIndex <> NOT_AN_INDEX -> hasSweetSpotData pi keyIndex = true ->
   nth inputIndex (mSampledInputXs tp) 0 <> NOT_A_COORDINATE ->
   ~ (getSweetSpotRadiiAt pi keyIndex == 0)%Q ->
   (0 <= calculateNormalizedSquaredDistance pi tp keyIndex inputIndex)%Q).
Proof.
  unfold calculateNormalizedSquaredDistance. split.
  - intros [H|[H|H]].
    + now rewrite H, Z.eqb_refl.
    + rewrite H. destruct (keyIndex =? NOT_AN_INDEX); reflexivity.
    + rewrite H. destruct (keyIndex =? NOT_AN_INDEX), (negb (hasSweetSpotData pi keyIndex));
        reflexivity.
  - intros Hk Hs Hx Hr. rewrite (proj2 (Z.eqb_neq _ _) Hk), Hs.
    rewrite (proj2 (Z.eqb_neq _ _)) by (intros E; apply Hx; now rewrite <- E).
    cbn [negb]. unfold calculateSquaredDistanceFromSweetSpotCenter.
    set (r := getSweetSpotRadiiAt pi keyIndex).
    apply Qle_shift_div_l.
    + assert (0 <= r * r)%Q by apply Qsquare_nonneg. assert (~ (r * r == 0))%Q.
      { intros E. apply Qmult_integral in E as [E|E]; contradiction. }
      apply Qle_lteq in H as [H|H]; [exact H|]. exfalso. apply H0. now symmetry.
    + rewrite Qmult_0_l. rewrite <- (Qplus_0_r 0) at 1.
      apply Qplus_le_compat; apply Qsquare_nonneg.
Qed.

Lemma mostProbableLoop_length (s : ProximityInfoState) :
  forall fuel i buf sum,
  (length (fst (mostProbableLoop s i fuel buf sum)) <= length buf + fuel)%nat /\
  (length (fst (mostProbableLoop s i fuel buf sum)) <= Nat.max (length buf) (MAX_WORD_LENGTH - 1))%nat.
Proof.
  induction fuel as [|fuel IH]; intros i buf sum; cbn [mostProbableLoop].
  - simpl. lia.
  - destruct (Nat.ltb_spec (length buf) (MAX_WORD_LENGTH - 1)) as [Hl|Hl]; [|simpl; lia].
    destruct (mostProbableAt (nth i (mCharProbabilities s) [])) as [m ch].
    destruct (ch =? NOT_AN_INDEX).
    + destruct (IH (S i) buf (sum + m)%Q). lia.
    + destruct (IH (S i) (buf ++ [codePointOf s ch]) (sum + m)%Q) as [H1 H2].
      rewrite length_app in H1, H2. simpl in H1, H2. unfold MAX_WORD_LENGTH in *. lia.
Qed.

(** X4. The string getMostProbableString returns is no longer than the
    sampled input nor than MAX_WORD_LENGTH - 1. *)
Theorem getMostProbableString_length (s : ProximityInfoState) :
  (length (fst (getMostProbableString s)) <= Nat.min (mSampledInputSize s) (MAX_WORD_LENGTH - 1))%nat.
Proof.
  unfold getMostProbableString.
  destruct (mostProbableLoop_length s (mSampledInputSize s) 0 [] 0%Q) as [H1 H2].
  simpl in H1, H2. unfold MAX_WORD_LENGTH in *. lia.
Qed.

Lemma initInputParams_tap_arrays (U : StateUtils) (s : ProximityInfoState) (inp : InputParams) :
  let t := initInputParams U s inp in
  let tapPrimary := negb (isGeometric inp) && (pointerId inp =? 0) in
  mInputProximities t =
    (if tapPrimary
     then initializeProximities (proximityInfo inp) (inputCodes inp) (xCoordinates inp)
            (yCoordinates inp) (inputSize inp) (replicate (MAX_PROXIMITY_CHARS_SIZE * MAX_WORD_LENGTH) 0)
     else replicate (MAX_PROXIMITY_CHARS_SIZE * MAX_WORD_LENGTH) 0) /\
  mPrimaryInputWord t =
    (if tapPrimary
     then primaryInputWordLoop (mInputProximities t) (Z.to_nat (inputSize inp))
            (replicate MAX_WORD_LENGTH 0)
     else replicate MAX_WORD_LENGTH 0) /\
  mNormalizedSquaredDistances t =
    (if tapPrimary && mTouchPositionCorrectionEnabled t
     then normalizedPointLoop U (proximityInfo inp) (mTouchPoints t) (mInputProximities t) 0
            (mSampledInputSize t) (replicate (MAX_PROXIMITY_CHARS_SIZE * MAX_WORD_LENGTH) NOT_A_DISTANCE)
     else replicate (MAX_PROXIMITY_CHARS_SIZE * MAX_WORD_LENGTH) NOT_A_DISTANCE) /\
  mTouchPositionCorrectionEnabled t =
    Nat.ltb 0 (mSampledInputSize t) && hasTouchPositionCorrectionData (proximityInfo inp)
    && nonNull (xCoordinates inp) && nonNull (yCoordinates inp).
Proof.
  intros t tapPrimary. subst t tapPrimary. unfold initInputParams.
  destruct (negb (isGeometric inp) && (pointerId inp =? 0)) eqn:Hc; cbn iota;
    repeat match goal with
           | |- context [match ?e with pair _ _ => _ end] => destruct e
           end;
    repeat split; reflexivity.
Qed.

(** X11. For a gesture, or a tap of a pointer other than 0, initInputParams
    leaves the proximities and the primary word all zero and every
    normalized distance NOT_A_DISTANCE. *)
Theorem initInputParams_non_primary_tap_resets (U : StateUtils) (s : ProximityInfoState)
    (inp : InputParams) :
  isGeometric inp = true \/ pointerId inp <> 0 ->
  mInputProximities (initInputParams U s inp) = replicate (MAX_PROXIMITY_CHARS_SIZE * MAX_WORD_LENGTH) 0 /\
  mPrimaryInputWord (initInputParams U s inp) = replicate MAX_WORD_LENGTH 0 /\
  mNormalizedSquaredDistances (initInputParams U s inp) =
    replicate (MAX_PROXIMITY_CHARS_SIZE * MAX_WORD_LENGTH) NOT_A_DISTANCE.
Proof.
  intros H. destruct (initInputParams_tap_arrays U s inp) as (Hp & Hw & Hd & _).
  cbv zeta in Hp, Hw, Hd.
  assert (Hc : negb (isGeometric inp) && (pointerId inp =? 0) = false).
  { destruct H as [-> | H]; [reflexivity|]. rewrite (proj2 (Z.eqb_neq _ _) H). apply andb_false_r. }
  rewrite Hc in Hp, Hw, Hd. auto.
Qed.

Lemma primaryInputWordLoop_nth (proximities word : list Z) (n i : nat) :
  (n <= length word)%nat ->
  nth i (primaryInputWordLoop proximities n word) 0 =
  if Nat.ltb i n then nth (i * MAX_PROXIMITY_CHARS_SIZE) proximities 0 else nth i word 0.
Proof.
  unfold primaryInputWordLoop. revert i. induction n as [|n IH]; intros i Hn; [reflexivity|].
  rewrite seq_S, fold_left_app. simpl fold_left.
  assert (Hlen : length (fold_left (fun w i => <[i := nth (i * MAX_PROXIMITY_CHARS_SIZE) proximities 0]> w)
                          (seq 0 n) word) = length word).
  { clear IH Hn. generalize word. induction (seq 0 n) as [|a l IHl]; intros w; [reflexivity|].
    simpl. rewrite IHl. apply length_insert. }
  destruct (Nat.eq_dec i n) as [->|Hne].
  - rewrite nth_insert_eq by lia. rewrite (proj2 (Nat.ltb_lt n (S n))) by lia. reflexivity.
  - rewrite nth_insert_ne by exact Hne. rewrite IH by lia.
    destruct (Nat.ltb_spec i n), (Nat.ltb_spec i (S n)); try reflexivity; lia.
Qed.

(** X12. For a tap of pointer 0 with at most MAX_WORD_LENGTH points, the
    primary input word holds the first proximity code point of each input
    point, then zeros. *)
Theorem initInputParams_primary_word (U : StateUtils) (s : ProximityInfoState)
    (inp : InputParams) (i : nat) :
  isGeometric inp = false -> pointerId inp = 0 ->
  0 <= inputSize inp <= Z.of_nat MAX_WORD_LENGTH -> (i < MAX_WORD_LENGTH)%nat ->
  nth i (mPrimaryInputWord (initInputParams U s inp)) 0 =
  (if Z.ltb (Z.of_nat i) (inputSize inp)
   then proximityCodePointAt (initInputParams U s inp) (Z.of_nat i) 0 else 0).
Proof.
  intros Hg Hp Hn Hi. destruct (initInputParams_tap_arrays U s inp) as (_ & Hw & _ & _).
  cbv zeta in Hw. rewrite Hg, Hp in Hw.
  change (negb false && (0 =? 0)) with true in Hw. cbn iota in Hw. rewrite Hw.
  rewrite primaryInputWordLoop_nth by (rewrite length_replicate; lia).
  unfold proximityCodePointAt. rewrite Nat2Z.id, Nat.add_0_r.
  destruct (Nat.ltb_spec i (Z.to_nat (inputSize inp))), (Z.ltb_spec (Z.of_nat i) (inputSize inp));
    try lia; try reflexivity.
  rewrite nth_lookup, lookup_replicate_2 by exact Hi. reflexivity.
Qed.

(** X13. With a null coordinate array, initInputParams samples no point,
    disables touch position correction, leaves every normalized distance
    NOT_A_DISTANCE, and getMostProbableString is empty with score 0. *)
Theorem initInputParams_null_coordinates (U : StateUtils) (s : ProximityInfoState)
    (inp : InputParams) :
  xCoordinates inp = None \/ yCoordinates inp = None ->
  mSampledInputSize (initInputParams U s inp) = 0%nat /\
  mTouchPositionCorrectionEnabled (initInputParams U s inp) = false /\
  mNormalizedSquaredDistances (initInputParams U s inp) =
    replicate (MAX_PROXIMITY_CHARS_SIZE * MAX_WORD_LENGTH) NOT_A_DISTANCE /\
  getMostProbableString (initInputParams U s inp) = ([], 0%Q).
Proof.
  intros Hnull.
  assert (Hn : mSampledInputSize (initInputParams U s inp) = 0%nat).
  { unfold initInputParams.
    repeat match goal with
           | |- context [match ?e with pair _ _ => _ end] =>
               match e with
               | match xCoordinates inp with _ => _ end => fail 1
               | _ => destruct e
               end
           end.
    destruct Hnull as [Hx|Hy]; [rewrite Hx|rewrite Hy; destruct (xCoordinates inp)];
      cbn iota;
      repeat match goal with
             | |- context [match ?e with pair _ _ => _ end] => destruct e
             end; reflexivity. }
  destruct (initInputParams_tap_arrays U s inp) as (_ & _ & Hd & Ht). cbv zeta in Hd.
  assert (Htf : mTouchPositionCorrectionEnabled (initInputParams U s inp) = false)
    by (rewrite Ht, Hn; reflexivity).
  rewrite Htf, andb_false_r in Hd.
  split; [exact Hn|]. split; [exact Htf|]. split; [exact Hd|].
  unfold getMostProbableString. rewrite Hn. reflexivity.
Qed.

Lemma Qfloor_nonneg (q : Q) : (0 <= q)%Q -> 0 <= Qfloor q.
Proof.
  intros H. destruct q as [a b]. unfold Qle in H. simpl in H. unfold Qfloor.
  apply Z.div_pos; lia.
Qed.

Lemma mod_mul_add (i j : nat) :
  (j < MAX_PROXIMITY_CHARS_SIZE)%nat ->
  ((i * MAX_PROXIMITY_CHARS_SIZE + j) mod MAX_PROXIMITY_CHARS_SIZE = j)%nat.
Proof.
  intros Hj. rewrite Nat.add_comm, Nat.Div0.mod_add. apply Nat.mod_small. exact Hj.
Qed.

Lemma normalizedDistanceLoop_writes (U : StateUtils) (pi : ProximityInfo) (tp : TouchPoints)
    (proximities : list Z) (i : nat) :
  forall fuel j distances, (j + fuel = MAX_PROXIMITY_CHARS_SIZE)%nat ->
  (forall k, (k < j)%nat -> 0 < nth (i * MAX_PROXIMITY_CHARS_SIZE + k) proximities 0) ->
  let r := normalizedDistanceLoop U pi tp proximities i j fuel distances in
  length r = length distances /\
  forall p, nth p r 0 = nth p distances 0 \/
    exists j', (j <= j' < MAX_PROXIMITY_CHARS_SIZE)%nat /\
      p = (i * MAX_PROXIMITY_CHARS_SIZE + j')%nat /\
      (forall k, (k <= j')%nat -> 0 < nth (i * MAX_PROXIMITY_CHARS_SIZE + k) proximities 0) /\
      writtenDistanceOk p (nth p r 0).
Proof.
  induction fuel as [|fuel IH]; intros j distances Hj Hpos r; subst r; cbn [normalizedDistanceLoop].
  - split; [reflexivity|]. intros p. left. reflexivity.
  - destruct (Z.ltb_spec 0 (nth (i * MAX_PROXIMITY_CHARS_SIZE + j) proximities 0)) as [Hc|Hc];
      [|split; [reflexivity|intros p; left; reflexivity]].
    set (p0 := (i * MAX_PROXIMITY_CHARS_SIZE + j)%nat).
    match goal with
    | |- context [<[p0 := ?v]> distances] => set (value := v)
    end.
    assert (Hval : writtenDistanceOk p0 value).
    { unfold value, writtenDistanceOk.
      destruct (Qle_bool 0 _) eqn:Hq.
      - left. apply Qfloor_nonneg. apply Qle_bool_iff in Hq.
        apply Qmult_le_0_compat; [exact Hq|]. vm_compute. discriminate.
      - right. unfold p0. rewrite mod_mul_add by (unfold MAX_PROXIMITY_CHARS_SIZE in *; lia).
        destruct (Nat.eqb_spec j 0); [left|right]; auto. }
    destruct (IH (S j) (<[p0 := value]> distances) ltac:(lia)) as [Hlen Hw].
    { intros k Hk. destruct (Nat.eq_dec k j) as [->|Hne]; [exact Hc|apply Hpos; lia]. }
    rewrite length_insert in Hlen. split; [exact Hlen|]. intros p.
    destruct (Hw p) as [Hp|(j' & Hj' & -> & Hall & Hok)].
    + destruct (Nat.eq_dec p p0) as [->|Hne].
      * destruct (Nat.lt_ge_cases p0 (length distances)) as [Hl|Hl].
        -- right. exists j. split; [lia|]. split; [reflexivity|]. split.
           ++ intros k Hk. destruct (Nat.eq_dec k j) as [->|Hne]; [exact Hc|apply Hpos; lia].
           ++ rewrite Hp, nth_insert_eq by exact Hl. exact Hval.
        -- left. rewrite Hp, !nth_overflow; [reflexivity|lia|rewrite length_insert; lia].
      * left. rewrite Hp. apply nth_insert_ne. exact Hne.
    + right. exists j'. split; [lia|]. auto.
Qed.

Lemma normalizedPointLoop_writes (U : StateUtils) (pi : ProximityInfo) (tp : TouchPoints)
    (proximities : list Z) :
  forall fuel i0 distances,
  let r := normalizedPointLoop U pi tp proximities i0 fuel distances in
  length r = length distances /\
  forall p, nth p r 0 = nth p distances 0 \/
    exists i j', (i0 <= i < i0 + fuel)%nat /\ (j' < MAX_PROXIMITY_CHARS_SIZE)%nat /\
      p = (i * MAX_PROXIMITY_CHARS_SIZE + j')%nat /\
      (forall k, (k <= j')%nat -> 0 < nth (i * MAX_PROXIMITY_CHARS_SIZE + k) proximities 0) /\
      writtenDistanceOk p (nth p r 0).
Proof.
  induction fuel as [|fuel IH]; intros i0 distances r; subst r; cbn [normalizedPointLoop].
  - split; [reflexivity|]. intros p; left; reflexivity.
  - set (d1 := normalizedDistanceLoop U pi tp proximities i0 0 MAX_PROXIMITY_CHARS_SIZE distances).
    destruct (normalizedDistanceLoop_writes U pi tp proximities i0 MAX_PROXIMITY_CHARS_SIZE 0
                distances ltac:(reflexivity) ltac:(intros; lia)) as [L1 W1].
    fold d1 in L1, W1.
    destruct (IH (S i0) d1) as [L2 W2]. split; [congruence|]. intros p.
    destruct (W2 p) as [Hp|(i & j' & Hi & Hj & Hpe & Hall & Hok)].
    + destruct (W1 p) as [Hp1|(j' & Hj & Hpe & Hall & Hok)].
      * left. congruence.
      * right. exists i0, j'. split; [lia|]. split; [lia|]. split; [exact Hpe|].
        split; [exact Hall|]. rewrite Hp. exact Hok.
    + right. exists i, j'. split; [lia|]. auto.
Qed.


(** X14. Each normalized squared distance after initInputParams is
    NOT_A_DISTANCE, a non-negative value, the equivalent-char marker in the
    first column of a point or the proximity-char marker in another. *)
Theorem initInputParams_normalized_distance_values (U : StateUtils) (s : ProximityInfoState)
    (inp : InputParams) (p : nat) :
  (p < MAX_PROXIMITY_CHARS_SIZE * MAX_WORD_LENGTH)%nat ->
  let v := nth p (mNormalizedSquaredDistances (initInputParams U s inp)) 0 in
  v = NOT_A_DISTANCE \/ 0 <= v \/
  ((p mod MAX_PROXIMITY_CHARS_SIZE = 0)%nat /\ v = EQUIVALENT_CHAR_WITHOUT_DISTANCE_INFO) \/
  ((p mod MAX_PROXIMITY_CHARS_SIZE <> 0)%nat /\ v = PROXIMITY_CHAR_WITHOUT_DISTANCE_INFO).
Proof.
  intros Hp v. subst v.
  destruct (initInputParams_tap_arrays U s inp) as (_ & _ & Hd & _). cbv zeta in Hd.
  rewrite Hd. destruct (_ && _).
  - match goal with
    | |- context [normalizedPointLoop ?a ?b ?c ?d ?e ?f ?g] =>
        destruct (normalizedPointLoop_writes a b c d f e g) as [_ W]; destruct (W p) as [H|H]
    end.
    + left. rewrite H, nth_lookup, lookup_replicate_2 by exact Hp. reflexivity.
    + destruct H as (i & j' & _ & _ & _ & _ & Hok). right. exact Hok.
  - left. rewrite nth_lookup, lookup_replicate_2 by exact Hp. reflexivity.
Qed.

(** X15. The normalized distance of column [j] of point [i] stays
    NOT_A_DISTANCE when the point is not sampled, touch position
    correction is off, or a column up to [j] holds no code point. *)
Theorem initInputParams_normalized_distance_unset (U : StateUtils) (s : ProximityInfoState)
    (inp : InputParams) (i j : nat) :
  let t := initInputParams U s inp in
  (i < MAX_WORD_LENGTH)%nat -> (j < MAX_PROXIMITY_CHARS_SIZE)%nat ->
  ((mSampledInputSize t <= i)%nat \/ mTouchPositionCorrectionEnabled t = false \/
   exists k, (k <= j)%nat /\ proximityCodePointAt t (Z.of_nat i) k <= 0) ->
  nth (i * MAX_PROXIMITY_CHARS_SIZE + j) (mNormalizedSquaredDistances t) 0 = NOT_A_DISTANCE.
Proof.
  intros t Hi Hj Hcase. subst t.
  assert (Hlt : (i * MAX_PROXIMITY_CHARS_SIZE + j < MAX_PROXIMITY_CHARS_SIZE * MAX_WORD_LENGTH)%nat)
    by (unfold MAX_PROXIMITY_CHARS_SIZE, MAX_WORD_LENGTH in *; lia).
  destruct (initInputParams_tap_arrays U s inp) as (_ & _ & Hd & _). cbv zeta in Hd.
  rewrite Hd. destruct (negb (isGeometric inp) && (pointerId inp =? 0)) eqn:Htap; cbn [andb];
    [|rewrite nth_lookup, lookup_replicate_2 by exact Hlt; reflexivity].
  destruct (mTouchPositionCorrectionEnabled (initInputParams U s inp)) eqn:Hen; cbn [andb];
    [|rewrite nth_lookup, lookup_replicate_2 by exact Hlt; reflexivity].
  match goal with
  | |- context [normalizedPointLoop ?a ?b ?c ?d ?e ?f ?g] =>
      destruct (normalizedPointLoop_writes a b c d f e g) as [_ W];
      destruct (W (i * MAX_PROXIMITY_CHARS_SIZE + j)%nat) as [H|H]
  end.
  - rewrite H, nth_lookup, lookup_replicate_2 by exact Hlt. reflexivity.
  - exfalso. destruct H as (i' & j' & Hi' & Hj' & Hpe & Hall & _).
    assert (i' = i /\ j' = j) as [-> ->].
    { unfold MAX_PROXIMITY_CHARS_SIZE in *. split; nia. }
    destruct Hcase as [Hc|[Hc|(k & Hk & Hc)]]; [lia|discriminate|].
    unfold proximityCodePointAt in Hc. rewrite Nat2Z.id in Hc.
    specialize (Hall k Hk). lia.
Qed.

Lemma Forall_empty_lookup (l : list KeySet) (i : nat) :
  Forall (fun S => S = ∅) l -> l !!! i = ∅.
Proof.
  intros H. rewrite list_lookup_total_alt. destruct (l !! i) as [S|] eqn:E; [|reflexivity].
  simpl. eapply Forall_lookup_1 in H; [exact H|exact E].
Qed.

Lemma distancePointLoop_searches (pi : ProximityInfo) (kc : nat) (tp : TouchPoints) :
  forall fuel i0 dc nears searches,
  length (snd (distancePointLoop pi kc tp i0 fuel dc nears searches)) = length searches /\
  (Forall (fun S => S = ∅) searches ->
   Forall (fun S => S = ∅) (snd (distancePointLoop pi kc tp i0 fuel dc nears searches))).
Proof.
  induction fuel as [|fuel IH]; intros i0 dc nears searches; cbn [distancePointLoop]; [simpl; auto|].
  match goal with
  | |- context [match ?e with pair _ _ => _ end] => destruct e as [dc1 nk]
  end.
  destruct (IH (S i0) dc1 (<[i0 := nk]> (<[i0 := ∅]> nears)) (<[i0 := ∅]> searches)) as [L F].
  rewrite L, length_insert. split; [reflexivity|]. intros H. apply F. apply Forall_insert; auto.
Qed.

Lemma distancePointLoop_rows (pi : ProximityInfo) (kc : nat) (tp : TouchPoints) :
  forall fuel i0 dc nears searches,
  ((i0 + fuel) * kc <= length dc)%nat ->
  let r := fst (fst (distancePointLoop pi kc tp i0 fuel dc nears searches)) in
  length r = length dc /\
  (forall p, (p < i0 * kc)%nat -> nth p r 0%Q = nth p dc 0%Q) /\
  (forall i k, (i0 <= i < i0 + fuel)%nat -> (k < kc)%nat ->
     nth (i * kc + k) r 0%Q =
     getNormalizedSquaredDistanceFromCenterFloatG pi k (nth i (mSampledInputXs tp) 0)
       (nth i (mSampledInputYs tp) 0)).
Proof.
  induction fuel as [|fuel IH]; intros i0 dc nears searches Hlen r; subst r; cbn [distancePointLoop].
  - simpl. split; [reflexivity|]. split; [reflexivity|intros; lia].
  - set (x := nth i0 (mSampledInputXs tp) 0). set (y := nth i0 (mSampledInputYs tp) 0).
    set (nears0 := <[i0 := ∅]> nears).
    pose proof (distanceKeyLoop_spec pi kc i0 x y kc 0 dc (nears0 !!! i0) ltac:(lia) ltac:(nia))
      as Hspec.
    cbv zeta in Hspec.
    destruct (distanceKeyLoop pi kc i0 x y 0 kc dc (nears0 !!! i0)) as [dc1 nk] eqn:Hk.
    simpl in Hspec. destruct Hspec as (L & Un & C & _).
    destruct (IH (S i0) dc1 (<[i0 := nk]> nears0) (<[i0 := ∅]> searches) ltac:(lia))
      as (L' & Un' & C').
    split; [congruence|]. split.
    + intros p Hp. rewrite Un' by nia. apply Un. lia.
    + intros i k Hi Hk'. destruct (Nat.eq_dec i i0) as [->|Hne].
      * rewrite Un' by nia. rewrite C by lia. reflexivity.
      * apply C'; lia.
Qed.

Lemma searchKeysInnerLoop_spec (lc : list Z) (rf : Z) (nk : list KeySet) (i : nat) (k : nat) :
  forall fuel j acc,
  k ∈ searchKeysInnerLoop lc rf nk i j fuel acc <->
  k ∈ acc \/ exists j'', (j <= j'' < j + fuel)%nat /\
    (forall j', (j <= j' <= j'')%nat -> nth j' lc 0 - nth i lc 0 < rf) /\ k ∈ nk !!! j''.
Proof.
  induction fuel as [|fuel IH]; intros j acc; cbn [searchKeysInnerLoop].
  - split; [tauto|]. intros [H|(j'' & Hj & _)]; [exact H|lia].
  - destruct (Z.leb_spec rf (nth j lc 0 - nth i lc 0)) as [Hstop|Hgo].
    + split; [tauto|]. intros [H|(j'' & Hj & Hall & _)]; [exact H|].
      specialize (Hall j ltac:(lia)). lia.
    + rewrite IH, elem_of_union. split.
      * intros [[H|H]|(j'' & Hj & Hall & H)]; [left; exact H| |].
        -- right. exists j. split; [lia|]. split; [|exact H]. intros j' Hj'.
           replace j' with j by lia. exact Hgo.
        -- right. exists j''. split; [lia|]. split; [|exact H]. intros j' Hj'.
           destruct (Nat.eq_dec j' j) as [->|Hne]; [exact Hgo|apply Hall; lia].
      * intros [H|(j'' & Hj & Hall & H)]; [left; left; exact H|].
        destruct (Nat.eq_dec j'' j) as [->|Hne]; [left; right; exact H|].
        right. exists j''. split; [lia|]. split; [|exact H]. intros j' Hj'. apply Hall. lia.
Qed.

Lemma searchKeysLoop_before (lc : list Z) (rf : Z) (nk : list KeySet) (ls n : nat) :
  forall fuel i0 sv i, (i < i0)%nat ->
  searchKeysLoop lc rf nk ls n i0 fuel sv !!! i = sv !!! i.
Proof.
  induction fuel as [|fuel IH]; intros i0 sv i Hi; cbn [searchKeysLoop]; [reflexivity|].
  rewrite IH by lia. rewrite list_lookup_total_insert_ne by lia.
  destruct (Nat.leb ls i0); [rewrite list_lookup_total_insert_ne by lia|]; reflexivity.
Qed.

Lemma searchKeysLoop_rows (lc : list Z) (rf : Z) (nk : list KeySet) (ls n : nat) :
  forall fuel i0 sv i, (i0 + fuel <= length sv)%nat -> (i0 <= i < i0 + fuel)%nat ->
  searchKeysLoop lc rf nk ls n i0 fuel sv !!! i =
  searchKeysInnerLoop lc rf nk i (Nat.max i ls) (n - Nat.max i ls)
    (if Nat.leb ls i then ∅ else sv !!! i).
Proof.
  induction fuel as [|fuel IH]; intros i0 sv i Hlen Hi; [lia|]. cbn [searchKeysLoop].
  destruct (Nat.eq_dec i i0) as [->|Hne].
  - rewrite searchKeysLoop_before by lia.
    destruct (Nat.leb ls i0) eqn:Hls;
      rewrite list_lookup_total_insert_eq
        by (repeat rewrite length_insert; lia);
      [rewrite list_lookup_total_insert_eq by lia|]; reflexivity.
  - destruct (Nat.leb ls i0) eqn:Hls0;
      (rewrite IH; [| repeat rewrite length_insert; lia | lia]);
      destruct (Nat.leb ls i) eqn:Hls; try reflexivity;
      rewrite !list_lookup_total_insert_ne by lia; reflexivity.
Qed.

(** X16. For a gesture, checkAndReturnIsContinuationPossible holds exactly
    when each sampled point's input index is within the new input and the
    new input has the same x, y and time at that index. *)
Theorem checkAndReturnIsContinuationPossible_geometric (s : ProximityInfoState)
    (inp : InputParams) :
  isGeometric inp = true ->
  (checkAndReturnIsContinuationPossible s inp = true <->
   forall i, (i < mSampledInputSize s)%nat ->
     let index := nth i (mInputIndice (mTouchPoints s)) 0 in
     index <= inputSize inp /\
     atZ (default [] (xCoordinates inp)) index = nth i (mSampledInputXs (mTouchPoints s)) 0 /\
     atZ (default [] (yCoordinates inp)) index = nth i (mSampledInputYs (mTouchPoints s)) 0 /\
     atZ (times inp) index = nth i (mTimes (mTouchPoints s)) 0).
Proof.
  intros Hgeo. unfold checkAndReturnIsContinuationPossible. rewrite Hgeo, forallb_forall.
  split.
  - intros Hall i Hi. cbv zeta. specialize (Hall i ltac:(apply in_seq; lia)).
    apply negb_true_iff in Hall. repeat rewrite orb_false_iff in Hall.
    destruct Hall as [[[H1 H2] H3] H4].
    apply Z.ltb_ge in H1. apply negb_false_iff, Z.eqb_eq in H2, H3, H4. auto.
  - intros Hall i Hin. apply in_seq in Hin. destruct (Hall i ltac:(lia)) as (H1 & H2 & H3 & H4).
    rewrite (proj2 (Z.ltb_ge _ _) H1), H2, H3, H4, !Z.eqb_refl. reflexivity.
Qed.

Ltac destruct_calls :=
  repeat (cbn iota;
    match goal with
    | |- context [refreshSpeedRates ?U ?a ?b ?c ?d ?e ?f] =>
        destruct (refreshSpeedRates U a b c d e f) as [[?avg ?sr] ?dirs]
    | |- context [distancePointLoop ?a ?b ?c ?d ?e ?f ?g ?h] =>
        let E := fresh "Edp" in
        destruct (distancePointLoop a b c d e f g h) as [[?dc ?nk] ?sk] eqn:E
    | |- context [updateAlignPointProbabilities ?U ?a ?b ?c ?d ?e ?f ?g ?h ?i ?j] =>
        let E := fresh "Eal" in
        destruct (updateAlignPointProbabilities U a b c d e f g h i j) as [?nk' ?cp'] eqn:E
    | |- context [match (if ?c then ?a else ?b) with pair _ _ => _ end] =>
        destruct (if c then a else b)
    end).

(** X17. For a gesture rebuilt from scratch, key [k] is in the search-key set
    of point [i] iff it is a near key of some point [j >= i] reached
    before the path length from [i] gets to readForwordLength. *)
Theorem initInputParams_search_keys (U : StateUtils) (s : ProximityInfoState)
    (inp : InputParams) (i k : nat) :
  isGeometric inp = true ->
  (checkAndReturnIsContinuationPossible s inp = false \/
   (length (mInputIndice (mTouchPoints s)) <= 1)%nat) ->
  (i < mSampledInputSize (initInputParams U s inp))%nat ->
  (k ∈ mSearchKeysVector (initInputParams U s inp) !!! i <->
   exists j, (i <= j < mSampledInputSize (initInputParams U s inp))%nat /\
     (forall j', (i <= j' <= j)%nat ->
        nth j' (mLengthCache (mTouchPoints (initInputParams U s inp))) 0 -
        nth i (mLengthCache (mTouchPoints (initInputParams U s inp))) 0
        < readForwordLength (proximityInfo inp)) /\
     k ∈ mNearKeysVector (initInputParams U s inp) !!! j).
Proof.
  intros Hgeo Hclear.
  assert (Hc : checkAndReturnIsContinuationPossible s inp &&
               Nat.ltb 1 (length (mInputIndice (mTouchPoints s))) = false).
  { destruct Hclear as [-> | H]; [reflexivity|].
    rewrite (proj2 (Nat.ltb_ge _ _) H). apply andb_false_r. }
  unfold initInputParams. cbv zeta. rewrite Hc, Hgeo. cbn iota.
  match goal with
  | |- context [match ?e with pair _ _ => _ end] => destruct e as [n tp1]
  end.
  destruct (Nat.ltb_spec 0 n) as [Hpos|Hpos]; cbn [andb negb]; destruct_calls;
    cbn [mSampledInputSize mSearchKeysVector mNearKeysVector mTouchPoints]; intros Hi; [|lia].
  match goal with
  | E : distancePointLoop _ _ _ _ _ _ _ _ = (_, _, ?sk) |- _ =>
      pose proof (distancePointLoop_searches (proximityInfo inp) (getKeyCount (proximityInfo inp))
                    tp1 n 0 (resize (n * getKeyCount (proximityInfo inp)) 0%Q [])
                    (resize n ∅ []) (resize n ∅ [])) as [Hlen _];
      replace (n - 0)%nat with n in E by lia; rewrite E in Hlen; simpl in Hlen;
      rewrite length_resize in Hlen
  end.
  rewrite searchKeysLoop_rows by lia.
  rewrite (proj2 (Nat.leb_le 0 i)) by lia. rewrite Nat.max_l by lia.
  rewrite searchKeysInnerLoop_spec. split.
  - intros [H|(j & Hj & Hall & H)]; [set_solver|]. exists j. split; [lia|]. auto.
  - intros (j & Hj & Hall & H). right. exists j. split; [lia|]. auto.
Qed.

Lemma initInputParams_tap_search_empty (U : StateUtils) (s : ProximityInfoState)
    (inp : InputParams) :
  isGeometric inp = false ->
  Forall (fun S => S = ∅) (mSearchKeysVector s) ->
  Forall (fun S => S = ∅) (mSearchKeysVector (initInputParams U s inp)).
Proof.
  intros Hgeo Hs. unfold initInputParams. cbv zeta. rewrite Hgeo.
  match goal with
  | |- context [match (if ?c then ?a else ?b) with pair _ _ => _ end] =>
      destruct (if c then a else b)
        as [[[[[[[[[pushStart ls] tp0] dc0] nk0] sk0] sr0] bs0] cp0] dirs0] eqn:Epre
  end.
  assert (Hsk0 : Forall (fun S => S = ∅) sk0).
  { destruct (_ && _) in Epre; injection Epre as <- <- <- <- <- <- <- <- <- <-;
      [exact Hs|constructor]. }
  clear Epre. cbn iota.
  match goal with
  | |- context [match ?e with pair _ _ => _ end] => destruct e as [n tp1]
  end.
  destruct (Nat.ltb 0 n); cbn [andb negb]; destruct_calls; cbn [mSearchKeysVector]; [|exact Hsk0].
  match goal with
  | E : distancePointLoop ?a ?b ?c ?d ?e ?f ?g ?h = _ |- _ =>
      pose proof (distancePointLoop_searches a b c e d f g h) as [_ F]; rewrite E in F
  end.
  apply F. apply Forall_resize; [reflexivity|exact Hsk0].
Qed.

(** X7. After any sequence of tap inputs from a fresh state, the
    search-key sets are empty: getAllPossibleChars returns its filter and
    isKeyInSerchKeysAfterIndex is false everywhere. *)
Theorem tap_session_adds_no_possible_chars (U : StateUtils) (inputs : list InputParams) :
  Forall (fun inp => isGeometric inp = false) inputs ->
  (forall (index : nat) (filter : list Z),
     getAllPossibleChars (runSession U freshState inputs) index filter = filter) /\
  (forall index keyId : Z,
     isKeyInSerchKeysAfterIndex (runSession U freshState inputs) index keyId = false).
Proof.
  intros Hall.
  assert (Hempty : Forall (fun S => S = ∅) (mSearchKeysVector (runSession U freshState inputs))).
  { unfold runSession.
    assert (Hgen : forall s0, Forall (fun S => S = ∅) (mSearchKeysVector s0) ->
              Forall (fun S => S = ∅) (mSearchKeysVector (fold_left (initInputParams U) inputs s0))).
    { induction Hall as [|inp inputs Hinp Hall IH]; intros s0 Hs0; [exact Hs0|].
      simpl. apply IH. apply initInputParams_tap_search_empty; assumption. }
    apply Hgen. constructor. }
  set (t := runSession U freshState inputs) in *. split.
  - intros index filter.
    destruct (getAllPossibleChars_added t index filter) as (added & Heq & Hadded).
    rewrite Heq. destruct added as [|x added]; [apply app_nil_r|].
    exfalso. destruct (Hadded x (or_introl eq_refl)) as (_ & j & _ & Hj & _).
    rewrite (Forall_empty_lookup _ _ Hempty) in Hj. set_solver.
  - intros index keyId. unfold isKeyInSerchKeysAfterIndex.
    rewrite (Forall_empty_lookup _ _ Hempty). apply bool_decide_eq_false. set_solver.
Qed.

(** X18. After initInputParams rebuilds the distance cache, getPointToKeyLength
    of a point and a key of the keyboard is the provider's distance of
    that point to the key, scaled, capped at maxPointToKeyLength. *)
Theorem initInputParams_point_to_key_length (U : StateUtils) (s : ProximityInfoState)
    (inp : InputParams) (i : nat) (codePoint : Z) (scale : Q) :
  (checkAndReturnIsContinuationPossible s inp = false \/
   (length (mInputIndice (mTouchPoints s)) <= 1)%nat) ->
  (i < mSampledInputSize (initInputParams U s inp))%nat ->
  0 <= getKeyIndexOf (proximityInfo inp) codePoint < Z.of_nat (getKeyCount (proximityInfo inp)) ->
  getPointToKeyLength U (initInputParams U s inp) (Z.of_nat i) codePoint scale =
  fmin (getNormalizedSquaredDistanceFromCenterFloatG (proximityInfo inp)
          (Z.to_nat (getKeyIndexOf (proximityInfo inp) codePoint))
          (nth i (mSampledInputXs (mTouchPoints (initInputParams U s inp))) 0)
          (nth i (mSampledInputYs (mTouchPoints (initInputParams U s inp))) 0) * scale)
       (maxPointToKeyLength inp).
Proof.
  intros Hclear Hi Hkey.
  assert (Hc : checkAndReturnIsContinuationPossible s inp &&
               Nat.ltb 1 (length (mInputIndice (mTouchPoints s))) = false).
  { destruct Hclear as [-> | H]; [reflexivity|].
    rewrite (proj2 (Nat.ltb_ge _ _) H). apply andb_false_r. }
  revert Hi. unfold getPointToKeyLength, initInputParams. cbv zeta. rewrite Hc. cbn iota.
  set (pi := proximityInfo inp) in *.
  match goal with
  | |- context [match ?e with pair _ _ => _ end] => destruct e as [n tp1]
  end.
  destruct (Nat.ltb_spec 0 n) as [Hpos|Hpos]; destruct (isGeometric inp); cbn [andb negb];
    destruct_calls;
    cbn [mSampledInputSize mDistanceCache_G mProximityInfo mMaxPointToKeyLength mTouchPoints];
    intros Hi; try lia.
  all: set (kc := getKeyCount pi) in *; set (keyId := getKeyIndexOf pi codePoint) in *.
  all: rewrite (proj2 (Z.eqb_neq keyId NOT_AN_INDEX)) by (unfold NOT_AN_INDEX; lia); cbn [negb].
  all: replace (Z.to_nat (Z.of_nat i * Z.of_nat kc + keyId)) with (i * kc + Z.to_nat keyId)%nat by lia.
  all: match goal with
       | E : distancePointLoop ?a ?b ?c ?d ?e ?f ?g ?h = _ |- _ =>
           pose proof (distancePointLoop_rows a b c e d f g h) as Hrows; rewrite E in Hrows;
           simpl in Hrows;
           destruct Hrows as (_ & _ & Hv); [rewrite length_resize; lia|]
       end.
  all: rewrite Hv by lia; reflexivity.
Qed.

(** X19. On a continued input, initInputParams keeps the cached point-to-key
    distances of the sampled points before the last two. *)
Theorem initInputParams_continuation_keeps_distance_rows (U : StateUtils)
    (s : ProximityInfoState) (inp : InputParams) (p : nat) :
  checkAndReturnIsContinuationPossible s inp = true ->
  (1 < length (mInputIndice (mTouchPoints s)))%nat ->
  (p < (length (mSampledInputXs (mTouchPoints s)) - 2) * getKeyCount (proximityInfo inp))%nat ->
  (p < length (mDistanceCache_G s))%nat ->
  (p < mSampledInputSize (initInputParams U s inp) * getKeyCount (proximityInfo inp))%nat ->
  nth p (mDistanceCache_G (initInputParams U s inp)) 0%Q = nth p (mDistanceCache_G s) 0%Q.
Proof.
  intros Hcheck Hlen Hp Hold.
  unfold initInputParams. cbv zeta. rewrite Hcheck, (proj2 (Nat.ltb_lt _ _) Hlen). cbn [andb]. cbn iota.
  set (ls := length (mSampledInputXs (popInputData (popInputData (mTouchPoints s))))).
  assert (Hls : ls = (length (mSampledInputXs (mTouchPoints s)) - 2)%nat)
    by (unfold ls; cbn [popInputData mSampledInputXs]; rewrite !length_pop_back; lia).
  rewrite <- Hls in Hp. clearbody ls.
  set (kc := getKeyCount (proximityInfo inp)) in *.
  match goal with
  | |- context [match ?e with pair _ _ => _ end] => destruct e as [n tp1]
  end.
  destruct (Nat.ltb_spec 0 n) as [Hpos|Hpos]; destruct (isGeometric inp); cbn [andb negb];
    destruct_calls; cbn [mSampledInputSize mDistanceCache_G]; intros Hn; try lia.
  all: match goal with
       | E : distancePointLoop ?a ?b ?c ?d ?e ?f ?g ?h = _ |- _ =>
           destruct (Nat.le_gt_cases ls n) as [Hle|Hgt];
           [pose proof (distancePointLoop_rows a b c e d f g h) as Hrows; rewrite E in Hrows;
            simpl in Hrows; destruct Hrows as (_ & Hkeep & _);
            [rewrite length_resize; nia|rewrite Hkeep by exact Hp]
           |replace (n - ls)%nat with 0%nat in E by lia; simpl in E;
            injection E as <- _ _]
       end.
  all: rewrite !nth_lookup, lookup_resize by lia; reflexivity.
Qed.

(** ** Witnesses of the further properties *)

Lemma getDuration_telescopes_witness :
  (1 < mSampledInputSize Demo.gestureAS)%nat /\
  fold_right Z.add 0 (map (fun i => getDuration Demo.gestureAS (Z.of_nat i)) (seq 0 1)) =
  atZ (mTimes (mTouchPoints Demo.gestureAS)) (Z.of_nat 1) - atZ (mTimes (mTouchPoints Demo.gestureAS)) 0.
Proof.
  split; [apply Nat.ltb_lt; vm_compute; reflexivity|].
  apply getDuration_telescopes. apply Nat.ltb_lt; vm_compute; reflexivity.
Defined.

Lemma getProbability_lookup_witness :
  getProbability (Demo.decoderState Demo.asd Demo.probs) 0 2 = inject_Z MAX_POINT_TO_KEY_LENGTH /\
  getProbability (Demo.decoderState Demo.asd Demo.probs) 0 1 = 3%Q.
Proof.
  destruct (getProbability_lookup (Demo.decoderState Demo.asd Demo.probs) 0 2
              ltac:(split; [lia|vm_compute; reflexivity])) as [H1 _].
  destruct (getProbability_lookup (Demo.decoderState Demo.asd Demo.probs) 0 1
              ltac:(split; [lia|vm_compute; reflexivity])) as [_ H2].
  split.
  - apply H1. vm_compute. intros [H|[H|[H|[]]]]; discriminate.
  - apply H2; [vm_compute; repeat constructor; simpl; intuition discriminate|].
    vm_compute. right; right; left; reflexivity.
Defined.

Lemma mostProbableAt_le_getProbability_witness :
  (fst (mostProbableAt (nth 0 (mCharProbabilities (Demo.decoderState Demo.asd Demo.probs)) []))
   <= adjustedLogProbability 1 (getProbability (Demo.decoderState Demo.asd Demo.probs) 0 1))%Q.
Proof.
  apply (mostProbableAt_le_getProbability _ 0 1). split; [lia|vm_compute; reflexivity].
Defined.

Lemma getAllPossibleChars_extends_witness :
  getAllPossibleChars Demo.gestureAS 5 [97] = [97] /\
  exists added, getAllPossibleChars Demo.gestureAS 0 [97] = [97] ++ added /\
    forall x, In x added -> ~ In x [97] /\
      exists j, (j < keyCountOf Demo.gestureAS)%nat /\ j ∈ mSearchKeysVector Demo.gestureAS !!! 0%nat /\
                x = codePointOf Demo.gestureAS (Z.of_nat j).
Proof.
  split.
  - apply (getAllPossibleChars_extends Demo.gestureAS 5 [97]). vm_compute. lia.
  - apply (getAllPossibleChars_extends Demo.gestureAS 0 [97]).
Defined.

Lemma getAllPossibleChars_complete_witness :
  In 100 (getAllPossibleChars Demo.gestureAS 0 []).
Proof.
  change 100 with (codePointOf Demo.gestureAS 2). change 0%nat with (Z.to_nat 0).
  apply getAllPossibleChars_complete.
  - split; [lia|vm_compute; reflexivity].
  - split; [lia|vm_compute; reflexivity].
  - vm_compute. reflexivity.
Defined.

Lemma getMatchedProximityId_reported_index_witness :
  getMatchedProximityId Demo.utils Demo.tapF 0 102 true = (ADDITIONAL_PROXIMITY_CHAR, Some 4%nat) /\
  exists d, (1 <= d < 4)%nat /\
    proximityCodePointAt Demo.tapF 0 d = ADDITIONAL_PROXIMITY_CHAR_DELIMITER_CODE.
Proof.
  assert (E : getMatchedProximityId Demo.utils Demo.tapF 0 102 true =
              (ADDITIONAL_PROXIMITY_CHAR, Some 4%nat)) by (vm_compute; reflexivity).
  split; [exact E|].
  destruct (getMatchedProximityId_reported_index _ _ _ _ _ _ _ E)
    as (_ & _ & _ & [[Ht _]|(_ & d & Hd & Hdel & _)]); [discriminate|].
  exists d. split; [exact Hd|exact Hdel].
Defined.

Lemma getMatchedProximityId_finds_near_witness :
  exists m, (1 <= m <= 1)%nat /\
    getMatchedProximityId Demo.utils Demo.tapF 0 115 true = (NEAR_PROXIMITY_CHAR, Some m).
Proof.
  apply (getMatchedProximityId_finds_near Demo.utils Demo.tapF 0 115 1);
    try (vm_compute; discriminate).
  - unfold MAX_PROXIMITY_CHARS_SIZE. lia.
  - left. vm_compute. reflexivity.
  - intros j' Hj'. replace j' with 1%nat by lia. vm_compute. reflexivity.
Defined.

Lemma calculateNormalizedSquaredDistance_sign_witness :
  calculateNormalizedSquaredDistance Demo.sweetAsd (mTouchPoints Demo.sweetTapA) NOT_AN_INDEX 0
    = NOT_A_DISTANCE_FLOAT /\
  (0 <= calculateNormalizedSquaredDistance Demo.sweetAsd (mTouchPoints Demo.sweetTapA) 1 0)%Q.
Proof.
  destruct (calculateNormalizedSquaredDistance_sign Demo.sweetAsd (mTouchPoints Demo.sweetTapA)
              NOT_AN_INDEX 0) as [H1 _].
  destruct (calculateNormalizedSquaredDistance_sign Demo.sweetAsd (mTouchPoints Demo.sweetTapA)
              1 0) as [_ H2].
  split; [apply H1; left; reflexivity|].
  apply H2; vm_compute; try reflexivity; discriminate.
Defined.

Lemma initInputParams_non_primary_tap_resets_witness :
  mPrimaryInputWord (initInputParams Demo.utils freshState Demo.gestureASinput) =
    replicate MAX_WORD_LENGTH 0.
Proof.
  apply (initInputParams_non_primary_tap_resets Demo.utils freshState Demo.gestureASinput).
  left. reflexivity.
Defined.

Lemma initInputParams_primary_word_witness :
  nth 1 (mPrimaryInputWord (initInputParams Demo.utils freshState Demo.tapAS)) 0 =
  proximityCodePointAt (initInputParams Demo.utils freshState Demo.tapAS) 1 0.
Proof.
  rewrite (initInputParams_primary_word Demo.utils freshState Demo.tapAS 1);
    [| reflexivity | reflexivity | vm_compute; split; discriminate | vm_compute; lia].
  vm_compute. reflexivity.
Defined.

Lemma initInputParams_null_coordinates_witness :
  mSampledInputSize (initInputParams Demo.utils Demo.tapASD Demo.tapNoCoordinates) = 0%nat /\
  getMostProbableString (initInputParams Demo.utils Demo.tapASD Demo.tapNoCoordinates) = ([], 0%Q).
Proof.
  destruct (initInputParams_null_coordinates Demo.utils Demo.tapASD Demo.tapNoCoordinates)
    as (H1 & _ & _ & H4); [left; reflexivity|].
  split; [exact H1|exact H4].
Defined.

Lemma initInputParams_normalized_distance_values_witness :
  let v := nth 0 (mNormalizedSquaredDistances Demo.sweetTapA) 0 in
  v = NOT_A_DISTANCE \/ 0 <= v \/
  ((0 mod MAX_PROXIMITY_CHARS_SIZE = 0)%nat /\ v = EQUIVALENT_CHAR_WITHOUT_DISTANCE_INFO) \/
  ((0 mod MAX_PROXIMITY_CHARS_SIZE <> 0)%nat /\ v = PROXIMITY_CHAR_WITHOUT_DISTANCE_INFO).
Proof.
  apply (initInputParams_normalized_distance_values Demo.utils freshState
           (Demo.input Demo.sweetAsd false 5 [(0, 0)]) 0).
  vm_compute. lia.
Defined.

Lemma initInputParams_normalized_distance_unset_witness :
  nth (0 * MAX_PROXIMITY_CHARS_SIZE + 5) (mNormalizedSquaredDistances Demo.sweetTapA) 0 =
    NOT_A_DISTANCE.
Proof.
  apply (initInputParams_normalized_distance_unset Demo.utils freshState
           (Demo.input Demo.sweetAsd false 5 [(0, 0)]) 0 5);
    [vm_compute; lia|vm_compute; lia|].
  right. right. exists 5%nat. split; [lia|]. vm_compute. discriminate.
Defined.

Lemma checkAndReturnIsContinuationPossible_geometric_witness :
  checkAndReturnIsContinuationPossible Demo.gestureAS Demo.gestureASinput = true.
Proof.
  apply checkAndReturnIsContinuationPossible_geometric; [reflexivity|].
  intros i Hi. vm_compute in Hi.
  destruct i as [|[|i]]; [vm_compute; repeat split; discriminate + reflexivity ..|lia].
Defined.

Lemma initInputParams_search_keys_witness :
  2%nat ∈ mSearchKeysVector (initInputParams Demo.utils freshState Demo.gestureASinput) !!! 0%nat.
Proof.
  apply (initInputParams_search_keys Demo.utils freshState Demo.gestureASinput 0 2);
    [reflexivity|right; simpl; lia|vm_compute; lia|].
  exists 1%nat. split; [vm_compute; lia|]. split.
  - intros j' Hj'. destruct j' as [|[|j']]; [vm_compute; reflexivity ..|lia].
  - vm_compute. set_solver.
Defined.

Lemma tap_session_adds_no_possible_chars_witness :
  getAllPossibleChars (runSession Demo.utils freshState [Demo.tapAS; Demo.tapB]) 0 [97] = [97].
Proof.
  apply tap_session_adds_no_possible_chars. repeat constructor.
Defined.

Lemma initInputParams_point_to_key_length_witness :
  getPointToKeyLength Demo.utils (initInputParams Demo.utils freshState Demo.tapAS) 1 97 1 =
  fmin (getNormalizedSquaredDistanceFromCenterFloatG Demo.asd 0 10 0 * 1) 5.
Proof.
  change 1 with (Z.of_nat 1) at 1.
  rewrite (initInputParams_point_to_key_length Demo.utils freshState Demo.tapAS 1 97 1);
    [|right; simpl; lia|vm_compute; lia|vm_compute; split; [discriminate|reflexivity]].
  reflexivity.
Defined.

Lemma initInputParams_continuation_keeps_distance_rows_witness :
  nth 1 (mDistanceCache_G (initInputParams Demo.utils Demo.tapASD Demo.tapASDA)) 0%Q =
  nth 1 (mDistanceCache_G Demo.tapASD) 0%Q.
Proof.
  apply initInputParams_continuation_keeps_distance_rows;
    [vm_compute; reflexivity|vm_compute; lia ..].
Defined.
